(** * FactSumm: the fact-consistency scoring pipeline

    A shallow embedding of [factsumm/factsumm.py] (class [FactSumm]) and the
    properties of its permutation builder, comparability filter, ratio
    scores, embedding-similarity workaround, lazy adapter slots and batch
    aggregation.

    Modelling conventions.
    - Python [float]/[int] scores are exact rationals ([Qc]); rounding is not
      modelled.  A division whose divisor is zero raises [ZeroDivisionError].
    - A Python [set] of triples is a [gset]; where the code iterates over a
      set (only when printing) the order of [elements] stands for Python's
      unspecified iteration order.
    - The segmenter, the ROUGE calculator, the model loaders, [qags_score]
      and the [Config] constants live outside [factsumm.py]; they are the
      fields of [Externals].  Loaded models are total functions returning
      data of the shape this file reads (entity dicts with the keys [word],
      [entity], [start], [end]; triples of three strings; ...).
    - Methods run in a state-and-exception monad over [World]: the instance
      ([self]), the chronological trace of adapter loads and calls, and the
      lines handed to [print].  A line records what is handed over, not how
      it is formatted.
    - [print] is [rich.print] (line 7).  What the console does with a line
      is outside [factsumm.py] and outside this model, where a [print] call
      records its line and goes on.  The console reads a [str] argument as
      markup and raises [MarkupError] on a closing tag that matches no open
      one, so a verbose run of the program stops at the first such line; the
      lines with text of the models are those of [_print_entities] and
      [_print_qas].  What is stated here of a verbose run is stated of a run
      whose lines the console accepts; what is stated of a silent run, which
      prints nothing, has no such proviso.
    - A [str] is held as its UTF-8 encoding; [len] and iteration count
      characters, not bytes. *)

From Stdlib Require Import QArith Qcanon.
From stdpp Require Import base numbers list strings gmap sets fin_sets.

Local Open Scope Qc_scope.

(** ** Data model *)

(** An entity mention, a dict with the keys the code reads. *)
Record Entity := mkEntity {
  word : string;
  entity : string;
  start : Z;
  end_ : Z;
}.

Definition span : Type := Z * Z.

(** One relation-extraction candidate: [{"text": ..., "spans": [a, b]}]. *)
Record Perm := mkPerm {
  text : string;
  spans : span * span;
}.

(** A fact triple [(head, relation, tail)]. *)
Definition triple : Type := string * string * string.

(** An OpenIE result, a dict with the keys [subject], [relation], [object]. *)
Record IETriple := mkIETriple {
  subject : string;
  relation : string;
  object : string;
}.

(** A generated question and a predicted answer (the keys the code reads). *)
Record Question := mkQuestion {
  q_question : string;
  q_answer : string;
}.

Record Answer := mkAnswer {
  question : string;
  prediction : string;
}.

(** [len(x)] as a number of the score arithmetic. *)
Definition Qc_of_nat (n : nat) : Qc := Qc_of_Z (Z.of_nat n).

(** ** Permutation builder *)

(** [itertools.permutations(l, 2)]: every ordered pair of elements at two
    different positions, in lexicographic order of the positions. *)
Definition permutations2 {A} (l : list A) : list (A * A) :=
  mjoin (imap (fun i x => (fun y => (x, y)) <$> delete i l) l).

Definition span_of (e : Entity) : span := (start e, end_ e).

(** [FactSumm.build_perm] (lines 50-84). *)
Definition build_perm (lines : list string)
    (total_entities : list (list Entity)) : list (list Perm) :=
  (fun '(line, line_entities) =>
     (fun comb : Entity * Entity =>
        {| text := line; spans := (span_of comb.1, span_of comb.2) |})
     <$> permutations2 line_entities)
  <$> zip lines total_entities.

(** ** Fact comparator *)

Definition prefix_of (t : triple) : string * string := (t.1.1, t.1.2).

(** [FactSumm._filter_out] (lines 159-178). *)
Definition _filter_out (sources summaries : gset triple)
    : gset triple * gset triple :=
  let source_tuple : gset (string * string) := set_map prefix_of sources in
  let summary_tuple : gset (string * string) := set_map prefix_of summaries in
  let sources' := filter (fun source => prefix_of source ∈ summary_tuple) sources in
  let summaries' := filter (fun summary => prefix_of summary ∈ source_tuple) summaries in
  (sources', summaries').

(** ** Adapters, instance state and effects *)

Inductive adapter :=
  Segmenter | Rouge | NER | RE | QG | QA | OpenIE | BertScore.

(** What the outside world sees of the adapters: a load with its arguments,
    or a call with its textual arguments. *)
Inductive event :=
  | Load (a : adapter) (args : list string)
  | Call (a : adapter) (args : list (list string)).

(** One [print] call. *)
Inductive line :=
  | Line (s : string)
  | EntitiesLine (i : nat) (ents : list (string * string))
  | TripleLine (t : triple)
  | QALine (q p : string)
  | ValueLine (label : string) (values : list Qc).

Inductive exn := ValueError | TypeError | IndexError | ZeroDivisionError.

Inductive result (A : Type) :=
  | Ok (a : A)
  | Raise (e : exn).
Arguments Ok {A} a.
Arguments Raise {A} e.

(** The loaded models, as the functions the code calls. *)
Definition NerModel : Type := list string -> list (list Entity).
Definition RelModel : Type := list Perm -> list triple.
Definition QgModel : Type := list string -> list (list Entity) -> list Question.
Definition QaModel : Type := string -> list Question -> list Answer.
Definition IeModel : Type := string -> list IETriple.
Definition BertScoreModel : Type := list string -> list string -> list (list Qc).

(** An attribute that holds a model name (a [str]) until the model is
    loaded, and the model afterwards. *)
Inductive slot (H : Type) :=
  | Name (name : string)
  | Model (h : H).
Arguments Name {H} name.
Arguments Model {H} h.

(** The attributes of a [FactSumm] instance that change after [__init__]. *)
Record FactSumm := mkFactSumm {
  ner : slot NerModel;
  rel : slot RelModel;
  qg : slot QgModel;
  qa : slot QaModel;
  bert_score : slot BertScoreModel;
  ie : option IeModel;
}.

(** Everything [factsumm.py] imports and uses. *)
Record Externals := mkExternals {
  NER_MODEL : string;
  REL_MODEL : string;
  QG_MODEL : string;
  QA_MODEL : string;
  BERT_SCORE_MODEL : string;
  segmenter_segment : string -> list string;
  strip : string -> string;
  rouge_n : string -> list string -> nat -> Qc;
  rouge_l : string -> list string -> Qc;
  load_ner : string -> string -> NerModel;
  load_rel : string -> string -> RelModel;
  load_qg : string -> string -> QgModel;
  load_qa : string -> string -> QaModel;
  load_bert_score : string -> string -> BertScoreModel;
  load_ie : IeModel;
  qags_score : list Answer -> list Answer -> Qc;
}.

Record World := mkWorld {
  self : FactSumm;
  trace : list event;
  stdout : list line;
}.

(** State and exceptions: an exception keeps the state reached so far. *)
Definition M (A : Type) : Type := World -> result A * World.

#[global] Instance M_ret : MRet M := fun A a w => (Ok a, w).

#[global] Instance M_bind : MBind M := fun A B f m w =>
  match m w with
  | (Ok a, w') => f a w'
  | (Raise e, w') => (Raise e, w')
  end.

Definition raise {A} (e : exn) : M A := fun w => (Raise e, w).

Definition get_self : M FactSumm := fun w => (Ok (self w), w).

Definition modify_self (f : FactSumm -> FactSumm) : M () := fun w =>
  (Ok (), {| self := f (self w); trace := trace w; stdout := stdout w |}).

Definition emit (e : event) : M () := fun w =>
  (Ok (), {| self := self w; trace := trace w ++ [e]; stdout := stdout w |}).

(** [print(...)]: the line is recorded.  What the console does with it,
    which for a [str] with an unmatched closing tag is to raise, is not part
    of the model. *)
Definition print (l : line) : M () := fun w =>
  (Ok (), {| self := self w; trace := trace w; stdout := stdout w ++ [l] |}).

Definition when (b : bool) (m : M ()) : M () := if b then m else mret ().

(** [for x in l: acc = f(acc, x)]. *)
Fixpoint foldM {A B} (f : A -> B -> M A) (a : A) (l : list B) : M A :=
  match l with
  | [] => mret a
  | x :: l' => a' ← f a x; foldM f a' l'
  end.

(** [for x in l: f(x)]. *)
Definition forM_ {B} (f : B -> M ()) (l : list B) : M () :=
  foldM (fun _ x => f x) () l.

(** [l[i]] on a list. *)
Definition index {A} (l : list A) (i : nat) : M A :=
  match l !! i with
  | Some x => mret x
  | None => raise IndexError
  end.

(** [x / n] for a length or count [n]. *)
Definition divide (x : Qc) (n : nat) : M Qc :=
  match n with
  | O => raise ZeroDivisionError
  | S _ => mret (x / Qc_of_nat n)
  end.

(** [score.pop(-1)], giving the list that remains. *)
Definition pop_last {A} (l : list A) : M (list A) :=
  match l with
  | [] => raise IndexError
  | _ :: _ => mret (removelast l)
  end.

(** [sum(l)]. *)
Definition sum (l : list Qc) : Qc := foldl Qcplus 0 l.

(** [str.upper] on ASCII letters. *)
Definition upper_ascii (c : Ascii.ascii) : Ascii.ascii :=
  let n := Ascii.nat_of_ascii c in
  if (97 <=? n)%nat && (n <=? 122)%nat then Ascii.ascii_of_nat (n - 32) else c.

Fixpoint upper (s : string) : string :=
  match s with
  | EmptyString => EmptyString
  | String c s' => String (upper_ascii c) (upper s')
  end.

Definition set_ner h (f : FactSumm) : FactSumm :=
  {| ner := h; rel := rel f; qg := qg f; qa := qa f;
     bert_score := bert_score f; ie := ie f |}.
Definition set_rel h (f : FactSumm) : FactSumm :=
  {| ner := ner f; rel := h; qg := qg f; qa := qa f;
     bert_score := bert_score f; ie := ie f |}.
Definition set_qg h (f : FactSumm) : FactSumm :=
  {| ner := ner f; rel := rel f; qg := h; qa := qa f;
     bert_score := bert_score f; ie := ie f |}.
Definition set_qa h (f : FactSumm) : FactSumm :=
  {| ner := ner f; rel := rel f; qg := qg f; qa := h;
     bert_score := bert_score f; ie := ie f |}.
Definition set_bert_score h (f : FactSumm) : FactSumm :=
  {| ner := ner f; rel := rel f; qg := qg f; qa := qa f;
     bert_score := h; ie := ie f |}.
Definition set_ie h (f : FactSumm) : FactSumm :=
  {| ner := ner f; rel := rel f; qg := qg f; qa := qa f;
     bert_score := bert_score f; ie := h |}.

(** ** The methods of [FactSumm] *)

Section methods.
Context (E : Externals).

(** [FactSumm.__init__] (lines 17-48): every model slot holds a name, the
    OpenIE slot is [None]. *)
Definition __init__
    (ner_model rel_model qg_model qa_model bert_score_model : option string)
    : FactSumm :=
  {| ner := Name (default (NER_MODEL E) ner_model);
     rel := Name (default (REL_MODEL E) rel_model);
     qg := Name (default (QG_MODEL E) qg_model);
     qa := Name (default (QA_MODEL E) qa_model);
     bert_score := Name (default (BERT_SCORE_MODEL E) bert_score_model);
     ie := None |}.

(** Calling an attribute: a loaded model is applied, a [str] is not
    callable. *)
Definition call_ner (lines : list string) : M (list (list Entity)) :=
  s ← get_self;
  match ner s with
  | Model h => emit (Call NER [lines]);; mret (h lines)
  | Name _ => raise TypeError
  end.

Definition call_rel (perm : list Perm) : M (list triple) :=
  s ← get_self;
  match rel s with
  | Model h => emit (Call RE [text <$> perm]);; mret (h perm)
  | Name _ => raise TypeError
  end.

Definition call_qg (lines : list string) (ents : list (list Entity))
    : M (list Question) :=
  s ← get_self;
  match qg s with
  | Model h => emit (Call QG [lines]);; mret (h lines ents)
  | Name _ => raise TypeError
  end.

Definition call_qa (context : string) (qas : list Question) : M (list Answer) :=
  s ← get_self;
  match qa s with
  | Model h => emit (Call QA [[context]; q_question <$> qas]);; mret (h context qas)
  | Name _ => raise TypeError
  end.

Definition call_ie (doc : string) : M (list IETriple) :=
  s ← get_self;
  match ie s with
  | Some h => emit (Call OpenIE [[doc]]);; mret (h doc)
  | None => raise TypeError
  end.

Definition call_bert_score (cands refs : list string) : M (list (list Qc)) :=
  s ← get_self;
  match bert_score s with
  | Model h => emit (Call BertScore [cands; refs]);; mret (h cands refs)
  | Name _ => raise TypeError
  end.

(** [FactSumm.get_facts] (lines 86-104). *)
Definition get_facts (lines : list string) (entities : list (list Entity))
    : M (gset triple) :=
  let perms := build_perm lines entities in
  triples ← foldM (fun triples perm =>
                     found ← call_rel perm; mret (triples ++ found)) [] perms;
  mret (list_to_set triples).

(** [FactSumm._segment] (lines 106-117). *)
Definition _segment (doc : string) : M (list string) :=
  emit (Call Segmenter [[doc]]);;
  mret (strip E <$> segmenter_segment E doc).

(** [FactSumm._print_entities] (lines 119-123). *)
Definition _print_entities (mode : string) (total_entities : list (list Entity))
    : M () :=
  print (Line (upper mode +:+ " Entities"));;
  forM_ (fun '(i, line_entities) =>
           print (EntitiesLine (i + 1)
                    ((fun e => (word e, entity e)) <$> line_entities)))
        (imap pair total_entities);;
  print (Line "").

(** [FactSumm.calculate_rouge] (lines 125-151). *)
Definition calculate_rouge (source summary : string) (verbose : bool)
    : M (Qc * Qc * Qc) :=
  source_lines ← _segment source;
  emit (Call Rouge [[summary]; source_lines]);;
  let rouge_1 := rouge_n E summary source_lines 1 in
  emit (Call Rouge [[summary]; source_lines]);;
  let rouge_2 := rouge_n E summary source_lines 2 in
  emit (Call Rouge [[summary]; source_lines]);;
  let rouge_l := rouge_l E summary source_lines in
  when verbose (print (ValueLine "Avg. ROUGE-1 / ROUGE-2 / ROUGE-L"
                         [rouge_1; rouge_2; rouge_l]));;
  mret (rouge_1, rouge_2, rouge_l).

(** [FactSumm._print_facts] (lines 153-157). *)
Definition _print_facts (mode : string) (facts : gset triple) : M () :=
  print (Line (upper mode +:+ " Facts"));;
  forM_ (fun fact => print (TripleLine fact)) (elements facts);;
  print (Line "").

(** The comparison at the end of [FactSumm.extract_facts] (lines 214-241),
    from the two extracted fact sets to the returned triple. *)
Definition compare_facts (source_ents summary_ents : list (list Entity))
    (source_facts summary_facts : gset triple) (verbose : bool)
    : M (list (list Entity) * list (list Entity) * Qc) :=
  let '(source_facts, summary_facts) := _filter_out source_facts summary_facts in
  let common_facts := summary_facts ∩ source_facts in
  let diff_facts := summary_facts ∖ source_facts in
  when verbose (
    _print_entities "source" source_ents;;
    _print_entities "summary" summary_ents;;
    _print_facts "source" source_facts;;
    _print_facts "summary" summary_facts;;
    _print_facts "common" common_facts;;
    _print_facts "diff" diff_facts);;
  let fact_score :=
    if decide (summary_facts = ∅) then 0
    else Qc_of_nat (size common_facts) / Qc_of_nat (size summary_facts) in
  when verbose (print (ValueLine "Fact Score" [fact_score]));;
  mret (source_ents, summary_ents, fact_score).

(** [FactSumm.extract_facts] (lines 180-241). *)
Definition extract_facts (source summary : string) (verbose : bool)
    (device : string)
    : M (list (list Entity) * list (list Entity) * Qc) :=
  s ← get_self;
  match ner s, rel s with
  | Name ner_name, Name rel_name =>
      emit (Load NER [ner_name; device]);;
      modify_self (set_ner (Model (load_ner E ner_name device)));;
      emit (Load RE [rel_name; device]);;
      modify_self (set_rel (Model (load_rel E rel_name device)))
  | _, _ => mret ()
  end;;
  source_lines ← _segment source;
  summary_lines ← _segment summary;
  source_ents ← call_ner source_lines;
  summary_ents ← call_ner summary_lines;
  source_facts ← get_facts source_lines source_ents;
  summary_facts ← get_facts summary_lines summary_ents;
  compare_facts source_ents summary_ents source_facts summary_facts verbose.

(** [FactSumm._print_qas] (lines 243-247). *)
Definition _print_qas (mode : string) (questions : list Answer) : M () :=
  print (Line ("Answers based on " +:+ upper mode
               +:+ " (Questions are generated from Summary)"));;
  forM_ (fun a => print (QALine (question a) (prediction a))) questions;;
  print (Line "").

(** [FactSumm.extract_qas] (lines 249-301). *)
Definition extract_qas (source summary : string)
    (source_ents summary_ents : option (list (list Entity)))
    (verbose : bool) (device : string) : M Qc :=
  s ← get_self;
  match qg s, qa s with
  | Name qg_name, Name qa_name =>
      emit (Load QG [qg_name; device]);;
      modify_self (set_qg (Model (load_qg E qg_name device)));;
      emit (Load QA [qa_name; device]);;
      modify_self (set_qa (Model (load_qa E qa_name device)))
  | _, _ => mret ()
  end;;
  s ← get_self;
  match ner s with
  | Name ner_name =>
      emit (Load NER [ner_name; device]);;
      modify_self (set_ner (Model (load_ner E ner_name device)))
  | Model _ => mret ()
  end;;
  source_lines ← _segment source;
  summary_lines ← _segment summary;
  source_ents ← match source_ents with
                 | None => call_ner source_lines
                 | Some ents => mret ents
                 end;
  summary_ents ← match summary_ents with
                  | None => call_ner summary_lines
                  | Some ents => mret ents
                  end;
  summary_qas ← call_qg summary_lines summary_ents;
  source_answers ← call_qa source summary_qas;
  summary_answers ← call_qa summary summary_qas;
  when verbose (
    _print_qas "source" source_answers;;
    _print_qas "summary" summary_answers);;
  let qa_score := qags_score E source_answers summary_answers in
  when verbose (print (ValueLine "QAGS Score" [qa_score]));;
  mret qa_score.

(** [FactSumm._print_triples] (lines 303-307). *)
Definition _print_triples (mode : string) (triples : gset triple) : M () :=
  print (Line (upper mode +:+ " Triples"));;
  forM_ (fun t => print (TripleLine t)) (elements triples);;
  print (Line "").

Definition as_tuple (t : IETriple) : triple := (subject t, relation t, object t).

(** The comparison at the end of [FactSumm.extract_triples] (lines 340-359),
    from the two extracted triple sets to the returned score. *)
Definition compare_triples (source_triples summary_triples : gset triple)
    (verbose : bool) : M Qc :=
  let '(source_triples, summary_triples) :=
    _filter_out source_triples summary_triples in
  when verbose (
    _print_triples "source" source_triples;;
    _print_triples "summary" summary_triples);;
  let common_triples := summary_triples ∩ source_triples in
  let triple_score :=
    if decide (summary_triples = ∅) then 0
    else Qc_of_nat (size common_triples) / Qc_of_nat (size summary_triples) in
  when verbose (print (ValueLine "Triple Score" [triple_score]));;
  mret triple_score.

(** [FactSumm.extract_triples] (lines 309-359). *)
Definition extract_triples (source summary : string) (verbose : bool) : M Qc :=
  s ← get_self;
  match ie s with
  | None =>
      emit (Load OpenIE []);;
      modify_self (set_ie (Some (load_ie E)))
  | Some _ => mret ()
  end;;
  found ← call_ie source;
  let source_triples : gset triple := list_to_set (as_tuple <$> found) in
  found ← call_ie summary;
  let summary_triples : gset triple := list_to_set (as_tuple <$> found) in
  compare_triples source_triples summary_triples verbose.

(** [FactSumm.calculate_bert_score] (lines 361-402). *)
Definition calculate_bert_score (source summary : string) (verbose : bool)
    (device : string) : M (list Qc) :=
  s ← get_self;
  match bert_score s with
  | Name name =>
      emit (Load BertScore [name; device]);;
      modify_self (set_bert_score (Model (load_bert_score E name device)))
  | Model _ => mret ()
  end;;
  source_lines ← _segment source;
  let summary_lines := [summary; "dummy"] in
  scores ← call_bert_score summary_lines source_lines;
  filtered_scores ←
    foldM (fun filtered_scores score =>
             score ← pop_last score;
             mean ← divide (sum score) (length score);
             mret (filtered_scores ++ [mean])) [] scores;
  when verbose (
    p ← index filtered_scores 0;
    r ← index filtered_scores 1;
    f ← index filtered_scores 2;
    print (ValueLine "BERTScore Score" [p; r; f]));;
  mret filtered_scores.

(** The arguments of [__call__]: a [str] or a list of [str]. *)
Inductive arg :=
  | Str (s : string)
  | Lst (l : list string).

(** A byte [10xxxxxx], which continues a character of a UTF-8 encoded
    [str]. *)
Definition continuation (c : Ascii.ascii) : bool :=
  let n := Ascii.nat_of_ascii c in (128 <=? n)%nat && (n <? 192)%nat.

(** The characters of a [str], each a [str] of length one: a byte with the
    continuation bytes that follow it. *)
Fixpoint characters (s : string) : list string :=
  match s with
  | EmptyString => []
  | String c s' =>
      let chs := characters s' in
      match s', chs with
      | String c' _, ch :: chs' =>
          if continuation c' then String c ch :: chs'
          else String c EmptyString :: chs
      | _, _ => String c EmptyString :: chs
      end
  end.

(** The elements [zip] iterates over: the characters of a [str], the
    elements of a list. *)
Definition items (x : arg) : list string :=
  match x with
  | Str s => characters s
  | Lst l => l
  end.

(** [len(x)]. *)
Definition len (x : arg) : nat := length (items x).

(** The running totals of [__call__] (lines 422-426). *)
Record Totals := mkTotals {
  fact_scores : Qc;
  qags_scores : Qc;
  triple_scores : Qc;
  rouges : Qc * Qc * Qc;
  bert_scores : Qc * Qc * Qc;
}.

(** The returned dict and its nested [bert_score] dict. *)
Record BertMetrics := mkBertMetrics {
  precision : Qc;
  recall : Qc;
  f1 : Qc;
}.

Record Metrics := mkMetrics {
  m_fact_score : Qc;
  m_qa_score : Qc;
  m_triple_score : Qc;
  m_rouge : Qc * Qc * Qc;
  m_bert_score : BertMetrics;
}.

(** One turn of the loop of [__call__] (lines 428-458). *)
Definition accumulate (verbose : bool) (device : string) (totals : Totals)
    (pair : string * string) : M Totals :=
  let '(source, summary) := pair in
  '(source_ents, summary_ents, fact_score) ←
    extract_facts source summary verbose device;
  let fact_scores := fact_scores totals + fact_score in
  qags_score ←
    extract_qas source summary (Some source_ents) (Some summary_ents)
      verbose device;
  let qags_scores := qags_scores totals + qags_score in
  triple_score ← extract_triples source summary verbose;
  let triple_scores := triple_scores totals + triple_score in
  '(rouge_1, rouge_2, rouge_l) ← calculate_rouge source summary verbose;
  let rouges :=
    ((rouges totals).1.1 + rouge_1,
     (rouges totals).1.2 + rouge_2,
     (rouges totals).2 + rouge_l) in
  bert_score ← calculate_bert_score source summary verbose device;
  b0 ← index bert_score 0;
  b1 ← index bert_score 1;
  b2 ← index bert_score 2;
  let bert_scores :=
    ((bert_scores totals).1.1 + b0,
     (bert_scores totals).1.2 + b1,
     (bert_scores totals).2 + b2) in
  mret {| fact_scores := fact_scores; qags_scores := qags_scores;
          triple_scores := triple_scores; rouges := rouges;
          bert_scores := bert_scores |}.

Definition zero_totals : Totals :=
  {| fact_scores := 0; qags_scores := 0; triple_scores := 0;
     rouges := (0, 0, 0); bert_scores := (0, 0, 0) |}.

(** [FactSumm.__call__] (lines 404-474). *)
Definition __call__ (sources summaries : arg) (verbose : bool)
    (device : string) : M Metrics :=
  let '(sources, summaries) :=
    match sources, summaries with
    | Str source, Str summary => (Lst [source], Lst [summary])
    | _, _ => (sources, summaries)
    end in
  if decide (len sources ≠ len summaries) then raise ValueError
  else
    let num_pairs := len sources in
    totals ← foldM (accumulate verbose device) zero_totals
               (zip (items sources) (items summaries));
    fact_score ← divide (fact_scores totals) num_pairs;
    qa_score ← divide (qags_scores totals) num_pairs;
    triple_score ← divide (triple_scores totals) num_pairs;
    rouge_1 ← divide (rouges totals).1.1 num_pairs;
    rouge_2 ← divide (rouges totals).1.2 num_pairs;
    rouge_l ← divide (rouges totals).2 num_pairs;
    mret {| m_fact_score := fact_score;
            m_qa_score := qa_score;
            m_triple_score := triple_score;
            m_rouge := (rouge_1, rouge_2, rouge_l);
            m_bert_score :=
              {| precision := (bert_scores totals).1.1;
                 recall := (bert_scores totals).1.2;
                 f1 := (bert_scores totals).2 |} |}.

End methods.

(** ** A small concrete environment

    One sentence per document, two entity mentions per sentence, a relation
    model that reports one triple per candidate, and constant scorers. *)
Module Toy.

Definition mentions : list Entity :=
  [ {| word := "Paris"; entity := "LOC"; start := 0; end_ := 5 |};
    {| word := "France"; entity := "LOC"; start := 24; end_ := 30 |} ].

Definition ner_model : NerModel := fun lines => (fun _ => mentions) <$> lines.

Definition rel_model : RelModel := fun perm =>
  (fun p => (text p, "capital_of", "France")) <$> perm.

Definition qg_model : QgModel := fun lines _ =>
  (fun l => {| q_question := l; q_answer := "Paris" |}) <$> lines.

Definition qa_model : QaModel := fun context qas =>
  (fun q => {| question := q_question q; prediction := q_answer q |}) <$> qas.

Definition ie_model : IeModel := fun doc =>
  [ {| subject := "Paris"; relation := "is"; object := doc |} ].

Definition bert_score_model : BertScoreModel := fun _ _ =>
  [ [1; 0]; [1; 0]; [1; 0] ].

Definition env : Externals :=
  {| NER_MODEL := "ner"; REL_MODEL := "rel"; QG_MODEL := "qg";
     QA_MODEL := "qa"; BERT_SCORE_MODEL := "bert";
     segmenter_segment := fun doc => [doc];
     strip := fun s => s;
     rouge_n := fun _ _ _ => 1;
     rouge_l := fun _ _ => 1;
     load_ner := fun _ _ => ner_model;
     load_rel := fun _ _ => rel_model;
     load_qg := fun _ _ => qg_model;
     load_qa := fun _ _ => qa_model;
     load_bert_score := fun _ _ => bert_score_model;
     load_ie := ie_model;
     qags_score := fun _ _ => 1 |}.

(** The same environment with a similarity model that answers [scores]. *)
Definition env_scoring (scores : list (list Qc)) : Externals :=
  {| NER_MODEL := "ner"; REL_MODEL := "rel"; QG_MODEL := "qg";
     QA_MODEL := "qa"; BERT_SCORE_MODEL := "bert";
     segmenter_segment := fun doc => [doc];
     strip := fun s => s;
     rouge_n := fun _ _ _ => 1;
     rouge_l := fun _ _ => 1;
     load_ner := fun _ _ => ner_model;
     load_rel := fun _ _ => rel_model;
     load_qg := fun _ _ => qg_model;
     load_qa := fun _ _ => qa_model;
     load_bert_score := fun _ _ _ _ => scores;
     load_ie := ie_model;
     qags_score := fun _ _ => 1 |}.

(** The same environment with an entity model that reports [ents] for every
    sentence. *)
Definition env_mentioning (ents : list Entity) : Externals :=
  {| NER_MODEL := "ner"; REL_MODEL := "rel"; QG_MODEL := "qg";
     QA_MODEL := "qa"; BERT_SCORE_MODEL := "bert";
     segmenter_segment := fun doc => [doc];
     strip := fun s => s;
     rouge_n := fun _ _ _ => 1;
     rouge_l := fun _ _ => 1;
     load_ner := fun _ _ lines => (fun _ => ents) <$> lines;
     load_rel := fun _ _ => rel_model;
     load_qg := fun _ _ => qg_model;
     load_qa := fun _ _ => qa_model;
     load_bert_score := fun _ _ => bert_score_model;
     load_ie := ie_model;
     qags_score := fun _ _ => 1 |}.

(** The mentions of a sentence that writes about a markup tag. *)
Definition tag_mentions : list Entity :=
  [ {| word := "[/b]"; entity := "MISC"; start := 0; end_ := 4 |};
    {| word := "France"; entity := "LOC"; start := 23; end_ := 29 |} ].

Definition paris_fact : triple := ("Paris", "capital_of", "France").
Definition berlin_fact : triple := ("Berlin", "capital_of", "Germany").

(** A freshly constructed instance, nothing loaded, nothing printed. *)
Definition fresh : World :=
  {| self := __init__ env None None None None None;
     trace := []; stdout := [] |}.

End Toy.

(** ** Relating two runs

    Two worlds agree when they differ at most in what has been printed; two
    computations are similar when, from agreeing worlds, they end with the
    same result (value or exception) in agreeing worlds. *)

Definition agree (w1 w2 : World) : Prop :=
  self w1 = self w2 /\ trace w1 = trace w2.

Definition sim {A} (m1 m2 : M A) : Prop :=
  forall w1 w2, agree w1 w2 ->
    (m1 w1).1 = (m2 w2).1 /\ agree (m1 w1).2 (m2 w2).2.

(** The embedding-similarity model a call would use: the loaded one, or the
    one [load_bert_score] gives for the configured name. *)
Definition bert_score_model_of (E : Externals) (s : FactSumm) (device : string)
    : BertScoreModel :=
  match bert_score s with
  | Name name => load_bert_score E name device
  | Model h => h
  end.

(** The load event of [calculate_bert_score], when the model is not loaded
    yet. *)
Definition bert_score_load (s : FactSumm) (device : string) : list event :=
  match bert_score s with
  | Name name => [Load BertScore [name; device]]
  | Model _ => []
  end.

(** The mean of a score list without its last element. *)
Definition mean_without_last (score : list Qc) : Qc :=
  (sum (removelast score) / Qc_of_nat (length (removelast score)))%Qc.

(** The ratio both comparisons compute: the share of the filtered
    summary-side triples that occur on the filtered source side, 0 when none
    is left. *)
Definition coverage (sources summaries : gset triple) : Qc :=
  let '(sources', summaries') := _filter_out sources summaries in
  if decide (summaries' = ∅) then 0%Qc
  else (Qc_of_nat (size (summaries' ∩ sources')) / Qc_of_nat (size summaries'))%Qc.

(** ** What a run computes

    The models a call works with, whether they are loaded already or get
    loaded by the call, and the values of one (source, summary) pair as
    functions of these models. *)

Record Models := mkModels {
  ner_m : NerModel;
  rel_m : RelModel;
  qg_m : QgModel;
  qa_m : QaModel;
  ie_m : IeModel;
  bert_score_m : BertScoreModel;
}.

Definition slot_model {H} (load : string -> H) (x : slot H) : H :=
  match x with
  | Name name => load name
  | Model h => h
  end.

Definition models_of (E : Externals) (device : string) (s : FactSumm) : Models :=
  {| ner_m := slot_model (fun name => load_ner E name device) (ner s);
     rel_m := slot_model (fun name => load_rel E name device) (rel s);
     qg_m := slot_model (fun name => load_qg E name device) (qg s);
     qa_m := slot_model (fun name => load_qa E name device) (qa s);
     ie_m := default (load_ie E) (ie s);
     bert_score_m :=
       slot_model (fun name => load_bert_score E name device) (bert_score s) |}.

(** The instance with every model loaded. *)
Definition loaded (m : Models) : FactSumm :=
  {| ner := Model (ner_m m); rel := Model (rel_m m); qg := Model (qg_m m);
     qa := Model (qa_m m); bert_score := Model (bert_score_m m);
     ie := Some (ie_m m) |}.

(** The load event of a slot that still holds a name. *)
Definition load_of {H} (a : adapter) (device : string) (x : slot H)
    : list event :=
  match x with
  | Name name => [Load a [name; device]]
  | Model _ => []
  end.

(** Two slots that are loaded together: both hold a name or both a model. *)
Definition together {H1 H2} (x : slot H1) (y : slot H2) : Prop :=
  match x, y with
  | Name _, Name _ | Model _, Model _ => True
  | _, _ => False
  end.

Definition segmented (E : Externals) (doc : string) : list string :=
  strip E <$> segmenter_segment E doc.

(** The calls of the relation model for the sentences of one document. *)
Definition rel_calls (perms : list (list Perm)) : list event :=
  (fun perm => Call RE [text <$> perm]) <$> perms.

Definition facts_of (m : Models) (lines : list string) : gset triple :=
  list_to_set (mjoin (rel_m m <$> build_perm lines (ner_m m lines))).

Definition pair_fact_score (E : Externals) (m : Models)
    (pair : string * string) : Qc :=
  coverage (facts_of m (segmented E pair.1)) (facts_of m (segmented E pair.2)).

Definition questions_of (E : Externals) (m : Models)
    (summary : string) (summary_ents : list (list Entity)) : list Question :=
  qg_m m (segmented E summary) summary_ents.

Definition pair_qa_score (E : Externals) (m : Models)
    (pair : string * string) : Qc :=
  let qas := questions_of E m pair.2 (ner_m m (segmented E pair.2)) in
  qags_score E (qa_m m pair.1 qas) (qa_m m pair.2 qas).

Definition triples_of (m : Models) (doc : string) : gset triple :=
  list_to_set (as_tuple <$> ie_m m doc).

Definition pair_triple_score (m : Models) (pair : string * string) : Qc :=
  coverage (triples_of m pair.1) (triples_of m pair.2).

Definition pair_rouge (E : Externals) (pair : string * string) : Qc * Qc * Qc :=
  (rouge_n E pair.2 (segmented E pair.1) 1,
   rouge_n E pair.2 (segmented E pair.1) 2,
   rouge_l E pair.2 (segmented E pair.1)).

Definition pair_bert_score (E : Externals) (m : Models)
    (pair : string * string) : list Qc :=
  mean_without_last
  <$> bert_score_m m [pair.2; "dummy"] (segmented E pair.1).

(** The similarity model answers with precision, recall and F1 lists, each
    with one score per candidate sentence. *)
Definition well_shaped (scores : list (list Qc)) : Prop :=
  (3 <= length scores)%nat /\
  Forall (fun score => (2 <= length score)%nat) scores.

(** The [i]-th of three values. *)
Definition nth_score (i : nat) (scores : list Qc) : Qc :=
  default 0%Qc (scores !! i).

(** A world with more events in its trace. *)
Definition traced (events : list event) (w : World) : World :=
  {| self := self w; trace := trace w ++ events; stdout := stdout w |}.

(** The totals of [__call__] after one more pair. *)
Definition add_pair (E : Externals) (m : Models) (totals : Totals)
    (pair : string * string) : Totals :=
  {| fact_scores := fact_scores totals + pair_fact_score E m pair;
     qags_scores := qags_scores totals + pair_qa_score E m pair;
     triple_scores := triple_scores totals + pair_triple_score m pair;
     rouges :=
       ((rouges totals).1.1 + (pair_rouge E pair).1.1,
        (rouges totals).1.2 + (pair_rouge E pair).1.2,
        (rouges totals).2 + (pair_rouge E pair).2);
     bert_scores :=
       ((bert_scores totals).1.1 + nth_score 0 (pair_bert_score E m pair),
        (bert_scores totals).1.2 + nth_score 1 (pair_bert_score E m pair),
        (bert_scores totals).2 + nth_score 2 (pair_bert_score E m pair)) |}.

(** The arithmetic mean of a list of values. *)
Definition mean (l : list Qc) : Qc := sum l / Qc_of_nat (length l).

(** ** What a run leaves alone *)

(** A computation keeps an observation [f] of the world, whatever it
    returns. *)
Definition frames {A X} (f : World -> X) (m : M A) : Prop :=
  forall w, f (m w).2 = f w.

(** [s'] has every model that [s] has loaded, the same one. *)
Definition extends (s s' : FactSumm) : Prop :=
  (forall h, ner s = Model h -> ner s' = Model h) /\
  (forall h, rel s = Model h -> rel s' = Model h) /\
  (forall h, qg s = Model h -> qg s' = Model h) /\
  (forall h, qa s = Model h -> qa s' = Model h) /\
  (forall h, bert_score s = Model h -> bert_score s' = Model h) /\
  (forall h, ie s = Some h -> ie s' = Some h).

(** A computation never unloads or replaces a loaded model. *)
Definition mono {A} (m : M A) : Prop :=
  forall w, extends (self w) (self (m w).2).

(** * Properties *)

Local Close Scope Qc_scope.

(** ** Permutation builder *)

Lemma length_join_imap_const {A B} (g : nat -> A -> list B) (l : list A) c :
  (forall i x, l !! i = Some x -> length (g i x) = c) ->
  length (mjoin (imap g l)) = length l * c.
Proof.
  revert g. induction l as [|x l IH]; intros g Hg; [done|].
  rewrite imap_cons.
  change (mjoin (g 0 x :: imap (g ∘ S) l)) with (g 0 x ++ mjoin (imap (g ∘ S) l)).
  rewrite length_app, (Hg 0 x eq_refl), (IH (g ∘ S)); [done|].
  intros i y Hi. apply (Hg (S i) y Hi).
Qed.

Lemma length_permutations2 {A} (l : list A) :
  length (permutations2 l) = length l * (length l - 1).
Proof.
  apply length_join_imap_const. intros i x Hi.
  rewrite length_fmap. apply length_delete. by exists x.
Qed.

Lemma elem_of_permutations2 {A} (l : list A) (x y : A) :
  (x, y) ∈ permutations2 l <->
  exists a b, a ≠ b /\ l !! a = Some x /\ l !! b = Some y.
Proof.
  unfold permutations2. rewrite list_elem_of_join. split.
  - intros (l' & Hxy & Hl').
    apply elem_of_lookup_imap in Hl' as (a & x' & -> & Ha).
    apply list_elem_of_fmap in Hxy as (y' & [= -> ->] & Hy).
    apply list_elem_of_lookup in Hy as [j Hj].
    destruct (decide (j < a)) as [Hlt|Hge].
    + rewrite list_lookup_delete_lt in Hj by done.
      exists a, j. split; [lia|done].
    + rewrite list_lookup_delete_ge in Hj by lia.
      exists a, (S j). split; [lia|done].
  - intros (a & b & Hab & Ha & Hb).
    exists ((fun z => (x, z)) <$> delete a l). split.
    + apply list_elem_of_fmap. exists y. split; [done|].
      apply list_elem_of_lookup.
      destruct (decide (b < a)) as [Hlt|Hge].
      * exists b. by rewrite list_lookup_delete_lt.
      * destruct b as [|b]; [lia|].
        exists b. rewrite list_lookup_delete_ge by lia. done.
    + apply elem_of_lookup_imap. by exists a, x.
Qed.

Lemma build_perm_lookup lines total_entities i line line_entities :
  lines !! i = Some line ->
  total_entities !! i = Some line_entities ->
  build_perm lines total_entities !! i =
    Some ((fun comb : Entity * Entity =>
             {| text := line; spans := (span_of comb.1, span_of comb.2) |})
          <$> permutations2 line_entities).
Proof.
  intros Hl He. unfold build_perm. rewrite list_lookup_fmap.
  assert (zip lines total_entities !! i = Some (line, line_entities)) as ->; [|done].
  apply lookup_zip_with_Some. by exists line, line_entities.
Qed.

(** C4: for the sentence at any position [i], with [k] entity mentions,
    [build_perm] emits exactly [k * (k - 1)] candidates; every candidate
    carries the full sentence text and the spans of two mentions at different
    positions of that same sentence's mention list; every such ordered pair
    of mentions is a candidate; and a sentence with at most one mention has
    no candidate. *)
Theorem build_perm_candidates (lines : list string)
    (total_entities : list (list Entity)) (i : nat) (line : string)
    (line_entities : list Entity) :
  lines !! i = Some line ->
  total_entities !! i = Some line_entities ->
  exists cands : list Perm,
    build_perm lines total_entities !! i = Some cands /\
    length cands = length line_entities * (length line_entities - 1) /\
    (forall c, c ∈ cands ->
       text c = line /\
       exists a b ea eb,
         a ≠ b /\ line_entities !! a = Some ea /\ line_entities !! b = Some eb /\
         spans c = (span_of ea, span_of eb)) /\
    (forall a b ea eb,
       a ≠ b -> line_entities !! a = Some ea -> line_entities !! b = Some eb ->
       {| text := line; spans := (span_of ea, span_of eb) |} ∈ cands) /\
    (length line_entities <= 1 -> cands = []).
Proof.
  intros Hl He. eexists. split; [by apply build_perm_lookup|].
  split; [by rewrite length_fmap, length_permutations2|].
  split; [|split].
  - intros c Hc. apply list_elem_of_fmap in Hc as ([ea eb] & -> & Hc).
    split; [done|]. apply elem_of_permutations2 in Hc as (a & b & ? & ? & ?).
    by exists a, b, ea, eb.
  - intros a b ea eb Hab Ha Hb. apply list_elem_of_fmap.
    exists (ea, eb). split; [done|]. apply elem_of_permutations2.
    by exists a, b.
  - intros Hk. apply length_zero_iff_nil.
    rewrite length_fmap, length_permutations2.
    destruct line_entities as [|? [|? ?]]; simpl in *; lia.
Qed.

Lemma build_perm_candidates_witness :
  exists cands : list Perm,
    build_perm ["Paris is the capital of France."] [Toy.mentions] !! 0
      = Some cands /\
    length cands = 2 * (2 - 1) /\
    (forall c, c ∈ cands ->
       text c = "Paris is the capital of France." /\
       exists a b ea eb,
         a ≠ b /\ Toy.mentions !! a = Some ea /\ Toy.mentions !! b = Some eb /\
         spans c = (span_of ea, span_of eb)) /\
    (forall a b ea eb,
       a ≠ b -> Toy.mentions !! a = Some ea -> Toy.mentions !! b = Some eb ->
       {| text := "Paris is the capital of France.";
          spans := (span_of ea, span_of eb) |} ∈ cands) /\
    (length Toy.mentions <= 1 -> cands = []).
Proof.
  apply (build_perm_candidates ["Paris is the capital of France."]
           [Toy.mentions] 0 "Paris is the capital of France." Toy.mentions);
    reflexivity.
Defined.

(** X1: [build_perm] yields one candidate list per zipped (sentence, mentions)
    pair, so nothing is produced beyond the shorter input. *)
Lemma length_build_perm lines total_entities :
  length (build_perm lines total_entities)
  = length lines `min` length total_entities.
Proof. unfold build_perm. by rewrite length_fmap, length_zip. Qed.

(** ** Fact comparator *)

(** C5: the comparability filter is symmetric, filtering [(A, B)] gives the
    pair that filtering [(B, A)] gives, swapped. *)
Theorem filter_out_symmetric (A B : gset triple) :
  _filter_out A B = prod_swap (_filter_out B A).
Proof. reflexivity. Qed.

Lemma elem_of_filter_out_1 (A B : gset triple) (t : triple) :
  t ∈ (_filter_out A B).1 <-> t ∈ A /\ exists u, u ∈ B /\ prefix_of u = prefix_of t.
Proof.
  unfold _filter_out; simpl. rewrite elem_of_filter, elem_of_map. split.
  - intros [(u & Hu & ?) ?]. split; [done|]. by exists u.
  - intros [? (u & ? & Hu)]. split; [|done]. by exists u.
Qed.

Lemma elem_of_filter_out_2 (A B : gset triple) (t : triple) :
  t ∈ (_filter_out A B).2 <-> t ∈ B /\ exists u, u ∈ A /\ prefix_of u = prefix_of t.
Proof.
  unfold _filter_out; simpl. rewrite elem_of_filter, elem_of_map. split.
  - intros [(u & Hu & ?) ?]. split; [done|]. by exists u.
  - intros [? (u & ? & Hu)]. split; [|done]. by exists u.
Qed.

(** ** Runs that only print *)

Lemma agree_refl w : agree w w.
Proof. by split. Qed.

Lemma agree_sym w1 w2 : agree w1 w2 -> agree w2 w1.
Proof. unfold agree. intros [? ?]. split; congruence. Qed.

Lemma agree_trans w1 w2 w3 : agree w1 w2 -> agree w2 w3 -> agree w1 w3.
Proof. unfold agree. intros [? ?] [? ?]. split; congruence. Qed.

Lemma sim_sym {A} (m1 m2 : M A) : sim m1 m2 -> sim m2 m1.
Proof.
  intros H w1 w2 Hw. destruct (H w2 w1 (agree_sym _ _ Hw)) as [-> ?].
  split; [done|by apply agree_sym].
Qed.

Lemma sim_trans {A} (m1 m2 m3 : M A) : sim m1 m2 -> sim m2 m3 -> sim m1 m3.
Proof.
  intros H12 H23 w1 w3 Hw.
  destruct (H12 w1 w1 (agree_refl _)) as [-> ?].
  destruct (H23 w1 w3 Hw) as [-> ?].
  split; [done|by eapply agree_trans].
Qed.

Lemma sim_ext {A} (m1 m1' m2 : M A) :
  (forall w, m1 w = m1' w) -> sim m1' m2 -> sim m1 m2.
Proof. intros Heq H w1 w2 Hw. rewrite Heq. by apply H. Qed.

Lemma sim_ret {A} (a : A) : sim (mret a) (mret a).
Proof. by intros w1 w2 Hw. Qed.

Lemma sim_raise {A} (e : exn) : sim (raise (A:=A) e) (raise e).
Proof. by intros w1 w2 Hw. Qed.

Lemma sim_get_self : sim get_self get_self.
Proof. intros w1 w2 [Hs Ht]. unfold get_self; simpl. by rewrite Hs. Qed.

Lemma sim_modify_self f : sim (modify_self f) (modify_self f).
Proof. intros w1 w2 [Hs Ht]. unfold modify_self, agree; simpl. by rewrite Hs. Qed.

Lemma sim_emit e : sim (emit e) (emit e).
Proof. intros w1 w2 [Hs Ht]. unfold emit, agree; simpl. by rewrite Ht. Qed.

Lemma print_only l : sim (print l) (mret ()).
Proof. by intros w1 w2 Hw. Qed.

Lemma sim_bind {A B} (m1 m2 : M A) (k1 k2 : A -> M B) :
  sim m1 m2 -> (forall a, sim (k1 a) (k2 a)) -> sim (m1 ≫= k1) (m2 ≫= k2).
Proof.
  intros Hm Hk w1 w2 Hw. unfold mbind, M_bind.
  destruct (Hm w1 w2 Hw) as [Hr Hw'].
  destruct (m1 w1) as [[a1|e1] w1'], (m2 w2) as [[a2|e2] w2'];
    simpl in *; simplify_eq; [by apply Hk|done].
Qed.

Lemma seq_only (p q : M ()) :
  sim p (mret ()) -> sim q (mret ()) -> sim (p;; q) (mret ()).
Proof.
  intros Hp Hq.
  apply sim_ext with (m1' := p;; q); [done|].
  eapply sim_trans; [apply sim_bind; [apply Hp|intros ?; apply Hq]|].
  by intros w1 w2 Hw.
Qed.

Lemma forM_only {B} (f : B -> M ()) (l : list B) :
  (forall x, sim (f x) (mret ())) -> sim (forM_ f l) (mret ()).
Proof.
  intros Hf. unfold forM_.
  induction l as [|x l IH]; simpl; [apply sim_ret|].
  eapply sim_trans; [apply sim_bind; [apply Hf|intros []; apply IH]|].
  by intros w1 w2 Hw.
Qed.

Lemma sim_when (v1 v2 : bool) (p : M ()) :
  sim p (mret ()) -> sim (when v1 p) (when v2 p).
Proof.
  intros Hp. destruct v1, v2; simpl.
  - eapply sim_trans; [apply Hp|by apply sim_sym].
  - done.
  - by apply sim_sym.
  - apply sim_ret.
Qed.

Lemma sim_foldM {A B} (f g : A -> B -> M A) (a : A) (l : list B) :
  (forall a x, sim (f a x) (g a x)) -> sim (foldM f a l) (foldM g a l).
Proof.
  intros Hfg. revert a. induction l as [|x l IH]; intros a; simpl.
  - apply sim_ret.
  - apply sim_bind; [apply Hfg|apply IH].
Qed.

(** After a computation that only prints, the rest runs in a world that
    agrees with the one before. *)
Lemma run_seq_only {A} (p : M ()) (k : M A) w :
  sim p (mret ()) -> exists w', agree w' w /\ (p;; k) w = k w'.
Proof.
  intros Hp. destruct (Hp w w (agree_refl _)) as [Hr Hw].
  unfold mbind, M_bind. destruct (p w) as [[[]|e] w']; simpl in *; [|done].
  by exists w'.
Qed.

Lemma when_only (v : bool) (p : M ()) : sim p (mret ()) -> sim (when v p) (mret ()).
Proof. intros Hp. destruct v; [done|apply sim_ret]. Qed.

Lemma _print_entities_only mode total_entities :
  sim (_print_entities mode total_entities) (mret ()).
Proof.
  unfold _print_entities. repeat apply seq_only; try apply print_only.
  apply forM_only. intros [i es]. apply print_only.
Qed.

Lemma _print_facts_only mode facts : sim (_print_facts mode facts) (mret ()).
Proof.
  unfold _print_facts. repeat apply seq_only; try apply print_only.
  apply forM_only. intros t. apply print_only.
Qed.

Lemma _print_triples_only mode triples :
  sim (_print_triples mode triples) (mret ()).
Proof.
  unfold _print_triples. repeat apply seq_only; try apply print_only.
  apply forM_only. intros t. apply print_only.
Qed.

Lemma _print_qas_only mode questions : sim (_print_qas mode questions) (mret ()).
Proof.
  unfold _print_qas. repeat apply seq_only; try apply print_only.
  apply forM_only. intros a. apply print_only.
Qed.

Create HintDb only.

#[local] Hint Resolve print_only _print_entities_only _print_facts_only
  _print_triples_only _print_qas_only seq_only when_only : only.

(** Step over a leading computation that only prints. *)
Ltac skip_prints :=
  match goal with
  | |- context [ @mbind M _ () ?B (fun _ => ?k) ?p ?w ] =>
      let w' := fresh "w" in
      destruct (run_seq_only (A:=B) p k w) as (w' & _ & ->);
      [auto 10 with only|]
  end.

(** What [compare_facts] and [compare_triples] return, whatever they print. *)
Lemma compare_facts_result (source_ents summary_ents : list (list Entity))
    (source_facts summary_facts : gset triple) (verbose : bool) (w : World) :
  (compare_facts source_ents summary_ents source_facts summary_facts verbose w).1
  = Ok (source_ents, summary_ents,
        let '(source', summary') := _filter_out source_facts summary_facts in
        if decide (summary' = ∅) then 0%Qc
        else (Qc_of_nat (size (summary' ∩ source')) / Qc_of_nat (size summary'))%Qc).
Proof.
  unfold compare_facts. destruct (_filter_out _ _) as [source' summary'].
  do 2 skip_prints. reflexivity.
Qed.

Lemma compare_triples_result (source_triples summary_triples : gset triple)
    (verbose : bool) (w : World) :
  (compare_triples source_triples summary_triples verbose w).1
  = Ok (let '(source', summary') := _filter_out source_triples summary_triples in
        if decide (summary' = ∅) then 0%Qc
        else (Qc_of_nat (size (summary' ∩ source')) / Qc_of_nat (size summary'))%Qc).
Proof.
  unfold compare_triples. destruct (_filter_out _ _) as [source' summary'].
  do 2 skip_prints. reflexivity.
Qed.


Lemma Qc_of_nat_div_diag (n : nat) :
  n ≠ 0 -> (Qc_of_nat n / Qc_of_nat n)%Qc = 1%Qc.
Proof.
  intros Hn. apply Qcmult_inv_r. unfold Qc_of_nat.
  rewrite <- Z2Qc_inj_0. intros H%Z2Qc_inj. lia.
Qed.





(** ** The entry point: argument check and empty batch *)

(** C3: two lists of different lengths make [__call__] raise [ValueError]
    and leave the world as it was: no model is loaded, no adapter is called,
    nothing is printed and no pair is processed. *)
Theorem call_length_mismatch (E : Externals) (sources summaries : list string)
    (verbose : bool) (device : string) (w : World) :
  length sources ≠ length summaries ->
  __call__ E (Lst sources) (Lst summaries) verbose device w
  = (Raise ValueError, w).
Proof.
  intros Hlen. unfold __call__. cbn [len].
  by rewrite decide_True.
Qed.

Lemma call_length_mismatch_witness :
  __call__ Toy.env (Lst ["a"; "b"]) (Lst ["c"]) false "cpu" Toy.fresh
  = (Raise ValueError, Toy.fresh).
Proof.
  apply (call_length_mismatch Toy.env ["a"; "b"] ["c"] false "cpu" Toy.fresh).
  simpl. lia.
Defined.

(** C10: on two empty lists [__call__] passes the length check, processes no
    pair (the world is unchanged) and raises [ZeroDivisionError] at the first
    average. *)
Theorem call_empty_batch (E : Externals) (verbose : bool) (device : string)
    (w : World) :
  __call__ E (Lst []) (Lst []) verbose device w = (Raise ZeroDivisionError, w).
Proof. reflexivity. Qed.

(** ** Embedding similarity *)

Lemma run_bind {A B} (m : M A) (k : A -> M B) (w w' : World) (a : A) :
  m w = (Ok a, w') -> (m ≫= k) w = k a w'.
Proof. intros H. unfold mbind, M_bind. by rewrite H. Qed.

Lemma filtered_scores_fold (scores : list (list Qc)) (acc : list Qc) (w : World) :
  (forall score, score ∈ scores -> 2 <= length score) ->
  foldM (fun filtered_scores score =>
           score ← pop_last score;
           mean ← divide (sum score) (length score);
           mret (filtered_scores ++ [mean])) acc scores w
  = (Ok (acc ++ (mean_without_last <$> scores)), w).
Proof.
  revert acc. induction scores as [|score scores IH]; intros acc Hlen.
  - simpl. by rewrite app_nil_r.
  - assert (2 <= length score) as Hs by (apply Hlen; left).
    destruct score as [|x [|y score]]; simpl in Hs; try lia.
    cbn [foldM]. unfold mbind at 1, M_bind at 1.
    change ((pop_last (x :: y :: score) ≫= _) w)
      with (Ok (acc ++ [mean_without_last (x :: y :: score)]), w).
    cbv beta iota. rewrite IH; [by rewrite <- app_assoc|].
    intros s Hs'. apply Hlen. by right.
Qed.

(** C7: [calculate_bert_score] hands the similarity model the summary
    followed by the placeholder sentence ["dummy"], and returns, for each
    score list the model gives back, the mean of the list without its last
    element.  The model gives one score per candidate sentence, so each list
    has at least two elements; the verbose report reads three of the
    results. *)
Theorem calculate_bert_score_pads_and_drops (E : Externals)
    (source summary : string) (verbose : bool) (device : string) (w : World) :
  let model := bert_score_model_of E (self w) device in
  let source_lines := strip E <$> segmenter_segment E source in
  let scores := model [summary; "dummy"] source_lines in
  Forall (fun score => 2 <= length score) scores ->
  (verbose = true -> 3 <= length scores) ->
  exists w',
    calculate_bert_score E source summary verbose device w
    = (Ok (mean_without_last <$> scores), w') /\
    trace w' = trace w ++ bert_score_load (self w) device
               ++ [Call Segmenter [[source]];
                   Call BertScore [[summary; "dummy"]; source_lines]].
Proof.
  intros model source_lines scores Hlen Hverbose.
  rewrite Forall_forall in Hlen.
  assert (exists w1,
    match bert_score (self w) with
    | Name name =>
        emit (Load BertScore [name; device]);;
        modify_self (set_bert_score (Model (load_bert_score E name device)))
    | Model _ => mret ()
    end w = (Ok (), w1) /\
    bert_score (self w1) = Model model /\
    trace w1 = trace w ++ bert_score_load (self w) device) as (w1 & Hload & Hm & Ht).
  { subst model. unfold bert_score_model_of, bert_score_load.
    destruct (bert_score (self w)) as [name|h] eqn:Hslot.
    - eexists. split; [reflexivity|]. by split.
    - eexists. split; [reflexivity|]. split; [done|]. by rewrite app_nil_r. }
  unfold calculate_bert_score.
  erewrite run_bind by reflexivity.
  rewrite (run_bind _ _ _ _ _ Hload).
  erewrite run_bind by reflexivity.
  erewrite run_bind
    by (unfold call_bert_score, mbind, M_bind, get_self; cbn; rewrite Hm;
        reflexivity).
  fold source_lines. fold scores.
  erewrite run_bind by (by apply filtered_scores_fold).
  rewrite app_nil_l.
  destruct verbose.
  - specialize (Hverbose eq_refl).
    assert (length (mean_without_last <$> scores) = length scores) as Hl
      by apply length_fmap.
    destruct (mean_without_last <$> scores) as [|p [|r [|f fs]]] eqn:Hfs;
      simpl in Hl; try lia.
    eexists. split; [reflexivity|].
    cbn. rewrite Ht. by rewrite <- !app_assoc.
  - eexists. split; [reflexivity|].
    cbn. rewrite Ht. by rewrite <- !app_assoc.
Qed.

Lemma calculate_bert_score_pads_and_drops_witness :
  exists w',
    calculate_bert_score Toy.env "Paris is in France." "Paris is French." true
      "cpu" Toy.fresh
    = (Ok (mean_without_last
           <$> Toy.bert_score_model ["Paris is French."; "dummy"]
                 ["Paris is in France."]), w') /\
    trace w' = [Load BertScore ["bert"; "cpu"];
                Call Segmenter [["Paris is in France."]];
                Call BertScore [["Paris is French."; "dummy"];
                                ["Paris is in France."]]].
Proof.
  apply (calculate_bert_score_pads_and_drops Toy.env "Paris is in France."
           "Paris is French." true "cpu" Toy.fresh).
  - simpl. repeat constructor.
  - intros _. simpl. lia.
Defined.

(** ** Verbose runs against silent runs

    In the model, where every line is recorded and the run goes on, the
    runs of a method with and without [verbose] are similar.  The lemmas of
    this part carry the equations of the silent runs over to runs whose
    lines the console accepts. *)

Lemma bind_assoc {A B C} (m : M A) (f : A -> M B) (g : B -> M C) (w : World) :
  ((m ≫= f) ≫= g) w = (m ≫= (fun x => f x ≫= g)) w.
Proof. unfold mbind, M_bind. by destruct (m w) as [[a|e] w']. Qed.

Lemma sim_bind_assoc {A B C} (m m' : M A) (f f' : A -> M B) (g g' : B -> M C) :
  sim (m ≫= (fun x => f x ≫= g)) (m' ≫= (fun x => f' x ≫= g')) ->
  sim ((m ≫= f) ≫= g) ((m' ≫= f') ≫= g').
Proof. intros H w1 w2 Hw. rewrite !bind_assoc. by apply H. Qed.

Lemma sim_index {A} (l : list A) (i : nat) : sim (index l i) (index l i).
Proof. unfold index. destruct (l !! i); [apply sim_ret|apply sim_raise]. Qed.

Lemma sim_divide (x : Qc) (n : nat) : sim (divide x n) (divide x n).
Proof. destruct n; [apply sim_raise|apply sim_ret]. Qed.

Lemma sim_pop_last {A} (l : list A) : sim (pop_last l) (pop_last l).
Proof. destruct l; [apply sim_raise|apply sim_ret]. Qed.

Create HintDb sim.

#[local] Hint Resolve sim_ret sim_raise sim_get_self sim_modify_self sim_emit
  sim_index sim_divide sim_pop_last : sim.

(** One structural step of a similarity proof. *)
Ltac sim_step :=
  lazymatch goal with
  | |- sim (when _ _) (when _ _) => apply sim_when; auto 10 with only
  | |- sim (foldM _ _ _) (foldM _ _ _) => apply sim_foldM; intros ? ?
  | |- sim (_ ≫= _) (_ ≫= _) => apply sim_bind; [|intros ?]
  | |- sim (match ?x with _ => _ end) _ => destruct x
  | |- _ => solve [auto with sim]
  end.

Ltac sim_auto := cbv beta; repeat (sim_step; cbv beta).

Section similar.
Context (E : Externals).

Lemma sim_call_ner lines : sim (call_ner lines) (call_ner lines).
Proof. unfold call_ner. sim_auto. Qed.

Lemma sim_call_rel perm : sim (call_rel perm) (call_rel perm).
Proof. unfold call_rel. sim_auto. Qed.

Lemma sim_call_qg lines ents : sim (call_qg lines ents) (call_qg lines ents).
Proof. unfold call_qg. sim_auto. Qed.

Lemma sim_call_qa context qas : sim (call_qa context qas) (call_qa context qas).
Proof. unfold call_qa. sim_auto. Qed.

Lemma sim_call_ie doc : sim (call_ie doc) (call_ie doc).
Proof. unfold call_ie. sim_auto. Qed.

Lemma sim_call_bert_score cands refs :
  sim (call_bert_score cands refs) (call_bert_score cands refs).
Proof. unfold call_bert_score. sim_auto. Qed.

Lemma sim__segment doc : sim (_segment E doc) (_segment E doc).
Proof. unfold _segment. sim_auto. Qed.

#[local] Hint Resolve sim_call_ner sim_call_rel sim_call_qg sim_call_qa
  sim_call_ie sim_call_bert_score sim__segment : sim.

Lemma sim_get_facts lines entities :
  sim (get_facts lines entities) (get_facts lines entities).
Proof. unfold get_facts. sim_auto. Qed.

#[local] Hint Resolve sim_get_facts : sim.

Lemma sim_compare_facts (source_ents summary_ents : list (list Entity))
    (source_facts summary_facts : gset triple) (v1 v2 : bool) :
  sim (compare_facts source_ents summary_ents source_facts summary_facts v1)
      (compare_facts source_ents summary_ents source_facts summary_facts v2).
Proof. unfold compare_facts. destruct (_filter_out _ _). sim_auto. Qed.

Lemma sim_compare_triples (source_triples summary_triples : gset triple)
    (v1 v2 : bool) :
  sim (compare_triples source_triples summary_triples v1)
      (compare_triples source_triples summary_triples v2).
Proof. unfold compare_triples. destruct (_filter_out _ _). sim_auto. Qed.

#[local] Hint Resolve sim_compare_facts sim_compare_triples : sim.

Lemma sim_extract_facts source summary (v1 v2 : bool) device :
  sim (extract_facts E source summary v1 device)
      (extract_facts E source summary v2 device).
Proof. unfold extract_facts. sim_auto. Qed.

Lemma sim_extract_qas source summary source_ents summary_ents
    (v1 v2 : bool) device :
  sim (extract_qas E source summary source_ents summary_ents v1 device)
      (extract_qas E source summary source_ents summary_ents v2 device).
Proof. unfold extract_qas. sim_auto. Qed.

Lemma sim_extract_triples source summary (v1 v2 : bool) :
  sim (extract_triples E source summary v1) (extract_triples E source summary v2).
Proof. unfold extract_triples. sim_auto. Qed.

Lemma sim_calculate_rouge source summary (v1 v2 : bool) :
  sim (calculate_rouge E source summary v1) (calculate_rouge E source summary v2).
Proof. unfold calculate_rouge. sim_auto. Qed.

#[local] Hint Resolve sim_extract_facts sim_extract_qas sim_extract_triples
  sim_calculate_rouge : sim.

(** The end of [calculate_bert_score] followed by the three reads of its
    result in [__call__]: a verbose run fails in the report and a silent run
    in the reads, both with [IndexError], when fewer than three results came
    back. *)
Lemma sim_bert_score_tail {B} (v1 v2 : bool) (filtered_scores : list Qc)
    (k : Qc -> Qc -> Qc -> M B) :
  (forall b0 b1 b2, sim (k b0 b1 b2) (k b0 b1 b2)) ->
  sim ((when v1 (
          p ← index filtered_scores 0;
          r ← index filtered_scores 1;
          f ← index filtered_scores 2;
          print (ValueLine "BERTScore Score" [p; r; f]));;
        mret filtered_scores)
       ≫= (fun bert_score =>
             b0 ← index bert_score 0;
             b1 ← index bert_score 1;
             b2 ← index bert_score 2;
             k b0 b1 b2))
      ((when v2 (
          p ← index filtered_scores 0;
          r ← index filtered_scores 1;
          f ← index filtered_scores 2;
          print (ValueLine "BERTScore Score" [p; r; f]));;
        mret filtered_scores)
       ≫= (fun bert_score =>
             b0 ← index bert_score 0;
             b1 ← index bert_score 1;
             b2 ← index bert_score 2;
             k b0 b1 b2)).
Proof.
  intros Hk w1 w2 Hw.
  unfold index, mbind, M_bind, mret, M_ret, raise, print, when.
  destruct (filtered_scores !! 0) as [b0|] eqn:H0,
           (filtered_scores !! 1) as [b1|] eqn:H1,
           (filtered_scores !! 2) as [b2|] eqn:H2;
    destruct v1, v2; cbn; rewrite ?H0, ?H1, ?H2; cbn; try done;
    apply Hk; destruct Hw; by split.
Qed.

Lemma sim_accumulate (v1 v2 : bool) device totals pair :
  sim (accumulate E v1 device totals pair) (accumulate E v2 device totals pair).
Proof.
  unfold accumulate. destruct pair as [source summary].
  apply sim_bind; [auto with sim|]. intros [[source_ents summary_ents] fact_score].
  apply sim_bind; [auto with sim|]. intros qags_score.
  apply sim_bind; [auto with sim|]. intros triple_score.
  apply sim_bind; [auto with sim|]. intros [[rouge_1 rouge_2] rouge_l].
  unfold calculate_bert_score.
  do 5 (apply sim_bind_assoc; apply sim_bind; [sim_auto|intros ?]).
  apply sim_bert_score_tail. intros b0 b1 b2. apply sim_ret.
Qed.

Lemma sim___call__ sources summaries (v1 v2 : bool) device :
  sim (__call__ E sources summaries v1 device)
      (__call__ E sources summaries v2 device).
Proof.
  unfold __call__.
  destruct sources as [source|sources], summaries as [summary|summaries];
    cbv beta iota; case_decide; try apply sim_raise;
    (apply sim_bind; [apply sim_foldM; intros; apply sim_accumulate|]);
    intros totals; sim_auto.
Qed.

End similar.


(** ** Lazy loading *)

Lemma run_bind_raise {A B} (m : M A) (k : A -> M B) (w w' : World) (e : exn) :
  m w = (Raise e, w') -> (m ≫= k) w = (Raise e, w').
Proof. intros H. unfold mbind, M_bind. by rewrite H. Qed.

(** X13: With the NER model loaded and the RE slot still holding a name,
    [extract_facts] loads nothing and fails at the first relation-extraction
    call, in every environment, as soon as the source has a sentence. *)
Lemma extract_facts_with_unloaded_rel (E : Externals)
    (source summary : string) (verbose : bool) (device : string) (w : World)
    (h : NerModel) (name : string) :
  ner (self w) = Model h ->
  rel (self w) = Name name ->
  build_perm (strip E <$> segmenter_segment E source)
    (h (strip E <$> segmenter_segment E source)) ≠ [] ->
  exists w',
    extract_facts E source summary verbose device w = (Raise TypeError, w') /\
    self w' = self w.
Proof.
  intros Hner Hrel Hperms. unfold extract_facts.
  erewrite run_bind by reflexivity. rewrite Hner.
  erewrite run_bind by reflexivity.
  erewrite run_bind by reflexivity.
  erewrite run_bind by reflexivity.
  erewrite run_bind
    by (unfold call_ner, mbind, M_bind, get_self; cbn; rewrite Hner; reflexivity).
  erewrite run_bind
    by (unfold call_ner, mbind, M_bind, get_self; cbn; rewrite Hner; reflexivity).
  eexists. split.
  - apply run_bind_raise. unfold get_facts. apply run_bind_raise.
    destruct (build_perm _ _) as [|perm perms]; [done|].
    cbn [foldM]. apply run_bind_raise. apply run_bind_raise.
    unfold call_rel, mbind, M_bind, get_self. cbn. rewrite Hrel. reflexivity.
  - reflexivity.
Qed.

(** C9 fails on the code: on a fresh instance, [extract_qas] loads the NER
    model on its own, after which the guard of [extract_facts] (both slots
    hold a name) is false; the RE slot keeps its name and calling it raises
    [TypeError].  The trace has no load of the RE model. *)
Theorem rel_left_unloaded_after_extract_qas :
  ((extract_qas Toy.env "Paris is in France." "Paris is French." None None
      false "cpu";;
    extract_facts Toy.env "Paris is in France." "Paris is French." false "cpu")
     Toy.fresh).1 = Raise TypeError /\
  rel (self
    ((extract_qas Toy.env "Paris is in France." "Paris is French." None None
        false "cpu";;
      extract_facts Toy.env "Paris is in France." "Paris is French." false "cpu")
       Toy.fresh).2) = Name "rel" /\
  trace
    ((extract_qas Toy.env "Paris is in France." "Paris is French." None None
        false "cpu";;
      extract_facts Toy.env "Paris is in France." "Paris is French." false "cpu")
       Toy.fresh).2
  = [Load QG ["qg"; "cpu"]; Load QA ["qa"; "cpu"]; Load NER ["ner"; "cpu"];
     Call Segmenter [["Paris is in France."]];
     Call Segmenter [["Paris is French."]];
     Call NER [["Paris is in France."]]; Call NER [["Paris is French."]];
     Call QG [["Paris is French."]];
     Call QA [["Paris is in France."]; ["Paris is French."]];
     Call QA [["Paris is French."]; ["Paris is French."]];
     Call Segmenter [["Paris is in France."]];
     Call Segmenter [["Paris is French."]];
     Call NER [["Paris is in France."]]; Call NER [["Paris is French."]]].
Proof. repeat split; vm_compute; reflexivity. Qed.

(** In the other order both calls succeed: [extract_facts] loads the NER and
    RE models together. *)
Lemma extract_facts_then_extract_qas :
  ((extract_facts Toy.env "Paris is in France." "Paris is French." false "cpu";;
    extract_qas Toy.env "Paris is in France." "Paris is French." None None
      false "cpu")
     Toy.fresh).1 = Ok 1%Qc.
Proof. vm_compute. reflexivity. Qed.

(** ** Batch aggregation *)

(** C1 fails on the code: for one pair the toy environment gives 1 for every
    metric; for a batch of two copies of that pair, [fact_score], [qa_score],
    [triple_score] and the three ROUGE values are the means (1 again), but
    the three embedding-similarity values are the sums (2), since [__call__]
    does not divide [bert_scores] by [num_pairs]. *)
Theorem bert_score_summed_not_averaged :
  exists m1 m2 w1 w2,
    __call__ Toy.env (Lst ["Paris is the capital of France."])
      (Lst ["Paris is the capital of France."])
      false "cpu" Toy.fresh = (Ok m1, w1) /\
    __call__ Toy.env
      (Lst ["Paris is the capital of France."; "Paris is the capital of France."])
      (Lst ["Paris is the capital of France."; "Paris is the capital of France."])
      false "cpu" Toy.fresh = (Ok m2, w2) /\
    (m_fact_score m1 = 1 /\ m_qa_score m1 = 1 /\ m_triple_score m1 = 1 /\
     m_rouge m1 = (1, 1, 1) /\
     precision (m_bert_score m1) = 1 /\ recall (m_bert_score m1) = 1 /\
     f1 (m_bert_score m1) = 1)%Qc /\
    (m_fact_score m2 = 1 /\ m_qa_score m2 = 1 /\ m_triple_score m2 = 1 /\
     m_rouge m2 = (1, 1, 1) /\
     precision (m_bert_score m2) = 2 /\ recall (m_bert_score m2) = 2 /\
     f1 (m_bert_score m2) = 2)%Qc.
Proof.
  do 4 eexists.
  split; [vm_compute; reflexivity|]. split; [vm_compute; reflexivity|].
  cbn [m_fact_score m_qa_score m_triple_score m_rouge m_bert_score
       precision recall f1].
  repeat split;
    try (apply Qc_is_canon; reflexivity);
    (apply (f_equal2 pair); [apply (f_equal2 pair)|];
     apply Qc_is_canon; reflexivity).
Qed.

(** * Further properties *)

(** ** Permutation builder *)

(** X2: The candidates of a sentence are closed under swapping the two mentions:
    a candidate with spans [(a, b)] comes with one with spans [(b, a)]. *)
Theorem build_perm_swapped (lines : list string)
    (total_entities : list (list Entity)) (i : nat) (cands : list Perm)
    (c : Perm) :
  build_perm lines total_entities !! i = Some cands ->
  c ∈ cands ->
  {| text := text c; spans := ((spans c).2, (spans c).1) |} ∈ cands.
Proof.
  unfold build_perm. rewrite list_lookup_fmap.
  destruct (zip lines total_entities !! i) as [[line line_entities]|];
    [|done].
  intros [= <-] Hc.
  apply list_elem_of_fmap in Hc as ([ea eb] & -> & Hc).
  apply elem_of_permutations2 in Hc as (a & b & Hab & Ha & Hb).
  apply list_elem_of_fmap. exists (eb, ea). split; [done|].
  apply elem_of_permutations2. exists b, a. by repeat split.
Qed.

Lemma build_perm_swapped_witness :
  {| text := "Paris is the capital of France.";
     spans := ((24, 30)%Z, (0, 5)%Z) |}
  ∈ [ {| text := "Paris is the capital of France.";
         spans := ((0, 5)%Z, (24, 30)%Z) |};
      {| text := "Paris is the capital of France.";
         spans := ((24, 30)%Z, (0, 5)%Z) |} ].
Proof.
  apply (build_perm_swapped ["Paris is the capital of France."]
           [Toy.mentions] 0 _
           {| text := "Paris is the capital of France.";
              spans := ((0, 5)%Z, (24, 30)%Z) |}).
  - reflexivity.
  - left.
Defined.

(** ** Fact comparator *)

(** X3: The filter only removes triples. *)
Theorem filter_out_subseteq (A B : gset triple) :
  (_filter_out A B).1 ⊆ A /\ (_filter_out A B).2 ⊆ B.
Proof.
  split; intros t.
  - rewrite elem_of_filter_out_1. by intros [? _].
  - rewrite elem_of_filter_out_2. by intros [? _].
Qed.

(** X4: After filtering, the two sides have the same set of (head, relation)
    pairs. *)
Theorem filter_out_same_prefixes (A B : gset triple) :
  set_map (D:=gset (string * string)) prefix_of (_filter_out A B).1
  = set_map prefix_of (_filter_out A B).2.
Proof.
  apply set_eq. intros p. rewrite !elem_of_map. split.
  - intros (t & -> & Ht). apply elem_of_filter_out_1 in Ht as (Ht & u & Hu & Hp).
    exists u. split; [done|]. apply elem_of_filter_out_2. split; [done|].
    by exists t.
  - intros (t & -> & Ht). apply elem_of_filter_out_2 in Ht as (Ht & u & Hu & Hp).
    exists u. split; [done|]. apply elem_of_filter_out_1. split; [done|].
    by exists t.
Qed.

Lemma filter_out_fixed (A B : gset triple) :
  (forall t, t ∈ A -> exists u, u ∈ B /\ prefix_of u = prefix_of t) ->
  (forall t, t ∈ B -> exists u, u ∈ A /\ prefix_of u = prefix_of t) ->
  _filter_out A B = (A, B).
Proof.
  intros HA HB.
  rewrite (surjective_pairing (_filter_out A B)). f_equal; apply set_eq; intros t.
  - rewrite elem_of_filter_out_1. split; [by intros [? _]|]. intros Ht.
    split; [done|]. by apply HA.
  - rewrite elem_of_filter_out_2. split; [by intros [? _]|]. intros Ht.
    split; [done|]. by apply HB.
Qed.

(** X5: Filtering is idempotent: a filtered pair passes the filter unchanged. *)
Theorem filter_out_idempotent (A B : gset triple) :
  _filter_out (_filter_out A B).1 (_filter_out A B).2 = _filter_out A B.
Proof.
  rewrite (surjective_pairing (_filter_out A B)) at 3.
  apply filter_out_fixed.
  - intros t Ht. apply elem_of_filter_out_1 in Ht as (Ht & u & Hu & Hp).
    exists u. split; [|done]. apply elem_of_filter_out_2. split; [done|].
    by exists t.
  - intros t Ht. apply elem_of_filter_out_2 in Ht as (Ht & u & Hu & Hp).
    exists u. split; [|done]. apply elem_of_filter_out_1. split; [done|].
    by exists t.
Qed.

(** A set compared with itself passes the filter whole. *)
Lemma filter_out_diag (A : gset triple) : _filter_out A A = (A, A).
Proof. apply filter_out_fixed; intros t Ht; by exists t. Qed.

Lemma compare_facts_coverage (source_ents summary_ents : list (list Entity))
    (sources summaries : gset triple) (verbose : bool) (w : World) :
  (compare_facts source_ents summary_ents sources summaries verbose w).1
  = Ok (source_ents, summary_ents, coverage sources summaries).
Proof. apply compare_facts_result. Qed.

Lemma compare_triples_coverage (sources summaries : gset triple)
    (verbose : bool) (w : World) :
  (compare_triples sources summaries verbose w).1
  = Ok (coverage sources summaries).
Proof. apply compare_triples_result. Qed.

Lemma Qc_of_nat_le (n m : nat) : n <= m -> (Qc_of_nat n <= Qc_of_nat m)%Qc.
Proof. intros H. unfold Qc_of_nat. apply (proj1 (Z2Qc_inj_le _ _)). lia. Qed.

Lemma Qc_of_nat_pos (n : nat) : n ≠ 0 -> (0 < Qc_of_nat n)%Qc.
Proof.
  intros H. unfold Qc_of_nat.
  change 0%Qc with (Q2Qc 0). rewrite <- Z2Qc_inj_0.
  apply (proj1 (Z2Qc_inj_lt _ _)). lia.
Qed.

Lemma Qc_of_nat_inj (n m : nat) : Qc_of_nat n = Qc_of_nat m -> n = m.
Proof. unfold Qc_of_nat. intros H%Z2Qc_inj. lia. Qed.

Lemma coverage_cases (A B : gset triple) :
  ((_filter_out A B).2 = ∅ /\ coverage A B = 0%Qc) \/
  ((_filter_out A B).2 ≠ ∅ /\
   coverage A B
   = (Qc_of_nat (size ((_filter_out A B).2 ∩ (_filter_out A B).1))
      / Qc_of_nat (size (_filter_out A B).2))%Qc).
Proof.
  unfold coverage. destruct (_filter_out A B) as [A' B']; simpl.
  destruct (decide (B' = ∅)); [by left|by right].
Qed.

Lemma size_non_empty (X : gset triple) : X ≠ ∅ -> size X ≠ 0.
Proof. intros H. apply size_non_empty_iff. by intros ?%leibniz_equiv. Qed.

Lemma coverage_bounds (A B : gset triple) : (0 <= coverage A B <= 1)%Qc.
Proof.
  destruct (coverage_cases A B) as [[_ ->]|[Hne ->]]; [done|].
  set (B' := (_filter_out A B).2) in *. set (A' := (_filter_out A B).1).
  pose proof (Qc_of_nat_pos _ (size_non_empty _ Hne)) as Hpos.
  split.
  - apply Qcmult_nonneg_nonneg.
    + apply (Qc_of_nat_le 0). lia.
    + apply Qclt_le_weak. by apply Qcinv_pos.
  - rewrite <- (Qc_of_nat_div_diag (size B')) by by apply size_non_empty.
    apply Qcmult_le_mono_nonneg_r.
    + apply Qclt_le_weak. by apply Qcinv_pos.
    + apply Qc_of_nat_le, subseteq_size, intersection_subseteq_l.
Qed.


Lemma coverage_one_iff (A B : gset triple) :
  coverage A B = 1%Qc <->
  (_filter_out A B).2 ≠ ∅ /\ (_filter_out A B).2 ⊆ (_filter_out A B).1.
Proof.
  destruct (coverage_cases A B) as [[He ->]|[Hne ->]].
  - split; [done|]. by intros [? _].
  - set (B' := (_filter_out A B).2) in *. set (A' := (_filter_out A B).1).
    pose proof (size_non_empty _ Hne) as Hsz.
    pose proof (Qc_of_nat_pos _ Hsz) as Hpos.
    split.
    + intros H1. split; [done|].
      assert (Qc_of_nat (size (B' ∩ A')) = Qc_of_nat (size B')) as Heq.
      { rewrite <- (Qcmult_1_l (Qc_of_nat (size B'))), <- H1.
        unfold Qcdiv. rewrite <- Qcmult_assoc, Qcmult_inv_l, Qcmult_1_r; [done|].
        intros H0. by apply Qclt_not_eq in Hpos. }
      apply Qc_of_nat_inj in Heq.
      assert (B' ∩ A' = B') as Hcap
        by (apply set_subseteq_size_eq; [apply intersection_subseteq_l|lia]).
      rewrite <- Hcap. apply intersection_subseteq_r.
    + intros [_ Hsub].
      rewrite (subseteq_intersection_1_L _ _ Hsub).
      by apply Qc_of_nat_div_diag.
Qed.

Lemma coverage_zero_iff (A B : gset triple) :
  coverage A B = 0%Qc <-> (_filter_out A B).2 ∩ (_filter_out A B).1 = ∅.
Proof.
  destruct (coverage_cases A B) as [[He ->]|[Hne ->]].
  - split; [|done]. intros _. rewrite He. apply (left_absorb_L ∅ (∩)).
  - set (B' := (_filter_out A B).2) in *. set (A' := (_filter_out A B).1).
    pose proof (size_non_empty _ Hne) as Hsz.
    pose proof (Qc_of_nat_pos _ Hsz) as Hpos.
    split.
    + intros H0. apply Qcmult_integral in H0 as [H0|H0].
      * unfold Qc_of_nat in H0. rewrite <- Z2Qc_inj_0 in H0.
        apply Z2Qc_inj in H0. apply leibniz_equiv, size_empty_iff. lia.
      * apply Qcinv_pos in Hpos. by apply Qclt_not_eq in Hpos.
    + intros ->. rewrite size_empty. apply Qcmult_0_l.
Qed.

(** X7: The open-triple score is exactly 1 only when the filtered summary side is non-empty
    and included in the filtered source side, and exactly 0 only when no
    filtered summary triple occurs on the filtered source side. *)
Theorem score_one_and_zero (sources summaries : gset triple) (verbose : bool)
    (w : World) :
  ((compare_triples sources summaries verbose w).1 = Ok 1%Qc <->
   (_filter_out sources summaries).2 ≠ ∅ /\
   (_filter_out sources summaries).2 ⊆ (_filter_out sources summaries).1) /\
  ((compare_triples sources summaries verbose w).1 = Ok 0%Qc <->
   (_filter_out sources summaries).2 ∩ (_filter_out sources summaries).1 = ∅).
Proof.
  rewrite compare_triples_coverage. split.
  - rewrite <- coverage_one_iff. split; [by intros [= ->]|by intros ->].
  - rewrite <- coverage_zero_iff. split; [by intros [= ->]|by intros ->].
Qed.


Lemma filter_out_ext (A B A' B' : gset triple) :
  (forall t, t ∈ (_filter_out A B).1 <-> t ∈ (_filter_out A' B').1) ->
  (forall t, t ∈ (_filter_out A B).2 <-> t ∈ (_filter_out A' B').2) ->
  _filter_out A B = _filter_out A' B'.
Proof.
  intros H1 H2.
  rewrite (surjective_pairing (_filter_out A B)),
    (surjective_pairing (_filter_out A' B')).
  f_equal; by apply set_eq.
Qed.

Lemma coverage_filter_out (A B A' B' : gset triple) :
  _filter_out A B = _filter_out A' B' -> coverage A B = coverage A' B'.
Proof. unfold coverage. by intros ->. Qed.

(** X9: A summary triple whose (head, relation) pair occurs in no source triple
    is left out of the comparison: with or without it both scores are the
    same, so it counts neither as a contradiction nor in the denominator. *)
Theorem incomparable_summary_triple_ignored
    (source_ents summary_ents : list (list Entity))
    (sources summaries : gset triple) (t : triple) (verbose : bool)
    (w : World) :
  (forall u, u ∈ sources -> prefix_of u ≠ prefix_of t) ->
  (compare_facts source_ents summary_ents sources ({[t]} ∪ summaries)
     verbose w).1
    = (compare_facts source_ents summary_ents sources summaries verbose w).1 /\
  (compare_triples sources ({[t]} ∪ summaries) verbose w).1
    = (compare_triples sources summaries verbose w).1.
Proof.
  intros Ht. rewrite !compare_facts_coverage, !compare_triples_coverage.
  assert (_filter_out sources ({[t]} ∪ summaries)
          = _filter_out sources summaries) as Heq.
  { apply filter_out_ext; intros x.
    - rewrite !elem_of_filter_out_1. split.
      + intros [Hx (u & Hu & Hp)]. split; [done|].
        apply elem_of_union in Hu as [->%elem_of_singleton|Hu].
        * by destruct (Ht x Hx).
        * by exists u.
      + intros [Hx (u & Hu & Hp)]. split; [done|].
        exists u. split; [|done]. apply elem_of_union. by right.
    - rewrite !elem_of_filter_out_2. split.
      + intros [Hx (u & Hu & Hp)].
        apply elem_of_union in Hx as [->%elem_of_singleton|Hx].
        * by destruct (Ht u Hu).
        * split; [done|]. by exists u.
      + intros [Hx Hu]. split; [|done]. apply elem_of_union. by right. }
  by rewrite (coverage_filter_out _ _ _ _ Heq).
Qed.

Lemma incomparable_summary_triple_ignored_witness :
  (compare_facts [] [] {[Toy.paris_fact]}
     ({[Toy.berlin_fact]} ∪ {[Toy.paris_fact]}) true Toy.fresh).1
    = (compare_facts [] [] {[Toy.paris_fact]} {[Toy.paris_fact]} true
         Toy.fresh).1 /\
  (compare_triples {[Toy.paris_fact]}
     ({[Toy.berlin_fact]} ∪ {[Toy.paris_fact]}) true Toy.fresh).1
    = (compare_triples {[Toy.paris_fact]} {[Toy.paris_fact]} true Toy.fresh).1.
Proof.
  apply (incomparable_summary_triple_ignored [] [] {[Toy.paris_fact]}
           {[Toy.paris_fact]} Toy.berlin_fact true Toy.fresh).
  intros u Hu. apply elem_of_singleton in Hu. rewrite Hu. discriminate.
Defined.

(** X10: A source triple whose (head, relation) pair occurs in no summary
    triple changes no score: with or without it both scores are the same. *)
Theorem incomparable_source_triple_ignored
    (source_ents summary_ents : list (list Entity))
    (sources summaries : gset triple) (t : triple) (verbose : bool)
    (w : World) :
  (forall u, u ∈ summaries -> prefix_of u ≠ prefix_of t) ->
  (compare_facts source_ents summary_ents ({[t]} ∪ sources) summaries
     verbose w).1
    = (compare_facts source_ents summary_ents sources summaries verbose w).1 /\
  (compare_triples ({[t]} ∪ sources) summaries verbose w).1
    = (compare_triples sources summaries verbose w).1.
Proof.
  intros Ht. rewrite !compare_facts_coverage, !compare_triples_coverage.
  assert (_filter_out ({[t]} ∪ sources) summaries
          = _filter_out sources summaries) as Heq.
  { apply filter_out_ext; intros x.
    - rewrite !elem_of_filter_out_1. split.
      + intros [Hx (u & Hu & Hp)].
        apply elem_of_union in Hx as [->%elem_of_singleton|Hx].
        * by destruct (Ht u Hu).
        * split; [done|]. by exists u.
      + intros [Hx Hu]. split; [|done]. apply elem_of_union. by right.
    - rewrite !elem_of_filter_out_2. split.
      + intros [Hx (u & Hu & Hp)]. split; [done|].
        apply elem_of_union in Hu as [->%elem_of_singleton|Hu].
        * by destruct (Ht x Hx).
        * by exists u.
      + intros [Hx (u & Hu & Hp)]. split; [done|].
        exists u. split; [|done]. apply elem_of_union. by right. }
  by rewrite (coverage_filter_out _ _ _ _ Heq).
Qed.

Lemma incomparable_source_triple_ignored_witness :
  (compare_facts [] [] ({[Toy.berlin_fact]} ∪ {[Toy.paris_fact]})
     {[Toy.paris_fact]} true Toy.fresh).1
    = (compare_facts [] [] {[Toy.paris_fact]} {[Toy.paris_fact]} true
         Toy.fresh).1 /\
  (compare_triples ({[Toy.berlin_fact]} ∪ {[Toy.paris_fact]})
     {[Toy.paris_fact]} true Toy.fresh).1
    = (compare_triples {[Toy.paris_fact]} {[Toy.paris_fact]} true Toy.fresh).1.
Proof.
  apply (incomparable_source_triple_ignored [] [] {[Toy.paris_fact]}
           {[Toy.paris_fact]} Toy.berlin_fact true Toy.fresh).
  intros u Hu. apply elem_of_singleton in Hu. rewrite Hu. discriminate.
Defined.

Lemma coverage_diag (A : gset triple) :
  coverage A A = if decide (A = ∅) then 0%Qc else 1%Qc.
Proof.
  unfold coverage. rewrite filter_out_diag.
  destruct (decide (A = ∅)); [done|].
  rewrite (subseteq_intersection_1_L A A) by done.
  by apply Qc_of_nat_div_diag, size_non_empty.
Qed.

(** ** What the methods compute *)

Lemma traced_nil (w : World) : traced [] w = w.
Proof. destruct w. unfold traced; simpl. by rewrite app_nil_r. Qed.

Lemma traced_traced (e1 e2 : list event) (w : World) :
  traced e2 (traced e1 w) = traced (e1 ++ e2) w.
Proof. unfold traced; simpl. by rewrite app_assoc. Qed.

(** A run similar to a silent run that succeeds without printing succeeds
    with the same value, instance and trace. *)
Lemma run_of_sim {A} (m m0 : M A) (w w0 : World) (a : A) :
  sim m m0 -> m0 w = (Ok a, w0) ->
  exists w', m w = (Ok a, w') /\ self w' = self w0 /\ trace w' = trace w0.
Proof.
  intros Hsim Hrun. destruct (Hsim w w (agree_refl w)) as [Hr [Hs Ht]].
  rewrite Hrun in Hr, Hs, Ht. simpl in *.
  exists (m w).2. split; [|done].
  rewrite (surjective_pairing (m w)). by rewrite Hr.
Qed.

Lemma run_raise_of_sim {A} (m m0 : M A) (w w0 : World) (e : exn) :
  sim m m0 -> m0 w = (Raise e, w0) ->
  exists w', m w = (Raise e, w') /\ self w' = self w0 /\ trace w' = trace w0.
Proof.
  intros Hsim Hrun. destruct (Hsim w w (agree_refl w)) as [Hr [Hs Ht]].
  rewrite Hrun in Hr, Hs, Ht. simpl in *.
  exists (m w).2. split; [|done].
  rewrite (surjective_pairing (m w)). by rewrite Hr.
Qed.

Lemma call_ner_run (h : NerModel) (lines : list string) (w : World) :
  ner (self w) = Model h ->
  call_ner lines w = (Ok (h lines), traced [Call NER [lines]] w).
Proof.
  intros H. unfold call_ner, mbind, M_bind, get_self. cbn. by rewrite H.
Qed.

Lemma call_rel_run (h : RelModel) (perm : list Perm) (w : World) :
  rel (self w) = Model h ->
  call_rel perm w = (Ok (h perm), traced [Call RE [text <$> perm]] w).
Proof.
  intros H. unfold call_rel, mbind, M_bind, get_self. cbn. by rewrite H.
Qed.

Lemma call_qg_run (h : QgModel) (lines : list string)
    (ents : list (list Entity)) (w : World) :
  qg (self w) = Model h ->
  call_qg lines ents w = (Ok (h lines ents), traced [Call QG [lines]] w).
Proof.
  intros H. unfold call_qg, mbind, M_bind, get_self. cbn. by rewrite H.
Qed.

Lemma call_qa_run (h : QaModel) (context : string) (qas : list Question)
    (w : World) :
  qa (self w) = Model h ->
  call_qa context qas w
  = (Ok (h context qas), traced [Call QA [[context]; q_question <$> qas]] w).
Proof.
  intros H. unfold call_qa, mbind, M_bind, get_self. cbn. by rewrite H.
Qed.

Lemma call_ie_run (h : IeModel) (doc : string) (w : World) :
  ie (self w) = Some h ->
  call_ie doc w = (Ok (h doc), traced [Call OpenIE [[doc]]] w).
Proof.
  intros H. unfold call_ie, mbind, M_bind, get_self. cbn. by rewrite H.
Qed.

Lemma call_bert_score_run (h : BertScoreModel) (cands refs : list string)
    (w : World) :
  bert_score (self w) = Model h ->
  call_bert_score cands refs w
  = (Ok (h cands refs), traced [Call BertScore [cands; refs]] w).
Proof.
  intros H. unfold call_bert_score, mbind, M_bind, get_self. cbn. by rewrite H.
Qed.

Section runs.
Context (E : Externals).

Lemma _segment_run (doc : string) (w : World) :
  _segment E doc w = (Ok (segmented E doc), traced [Call Segmenter [[doc]]] w).
Proof. reflexivity. Qed.

Lemma rel_fold_run (h : RelModel) (perms : list (list Perm))
    (acc : list triple) (w : World) :
  rel (self w) = Model h ->
  foldM (fun triples perm => found ← call_rel perm; mret (triples ++ found))
    acc perms w
  = (Ok (acc ++ mjoin (h <$> perms)), traced (rel_calls perms) w).
Proof.
  revert acc w. induction perms as [|perm perms IH]; intros acc w Hrel.
  - simpl. by rewrite app_nil_r, traced_nil.
  - cbn [foldM].
    erewrite run_bind
      by (erewrite run_bind by (by apply call_rel_run); reflexivity).
    rewrite IH by done. rewrite traced_traced.
    by rewrite <- app_assoc.
Qed.

Lemma get_facts_calls (h : RelModel) (lines : list string)
    (entities : list (list Entity)) (w : World) :
  rel (self w) = Model h ->
  get_facts lines entities w
  = (Ok (list_to_set (mjoin (h <$> build_perm lines entities))),
     traced (rel_calls (build_perm lines entities)) w).
Proof.
  intros Hrel. unfold get_facts.
  erewrite run_bind by (by apply rel_fold_run). reflexivity.
Qed.

(** X11: With the relation model loaded, [get_facts] calls it once per zipped
    sentence, in order, also for a sentence without candidates, and returns
    the set of all triples it reports. *)
Theorem get_facts_run (h : RelModel) (lines : list string)
    (entities : list (list Entity)) (w : World) :
  rel (self w) = Model h ->
  get_facts lines entities w
  = (Ok (list_to_set (mjoin (h <$> build_perm lines entities))),
     traced (rel_calls (build_perm lines entities)) w).
Proof. apply get_facts_calls. Qed.

Lemma get_facts_run_witness :
  get_facts ["Paris is the capital of France."; "It is large."]
    [Toy.mentions; []]
    {| self := loaded (models_of Toy.env "cpu" (self Toy.fresh));
       trace := []; stdout := [] |}
  = (Ok (list_to_set (mjoin (Toy.rel_model
           <$> build_perm ["Paris is the capital of France."; "It is large."]
                 [Toy.mentions; []]))),
     traced (rel_calls (build_perm
               ["Paris is the capital of France."; "It is large."]
               [Toy.mentions; []]))
       {| self := loaded (models_of Toy.env "cpu" (self Toy.fresh));
          trace := []; stdout := [] |}).
Proof.
  apply (get_facts_run Toy.rel_model
           ["Paris is the capital of France."; "It is large."]
           [Toy.mentions; []]).
  reflexivity.
Defined.

End runs.

Lemma compare_facts_silent (source_ents summary_ents : list (list Entity))
    (sources summaries : gset triple) (w : World) :
  compare_facts source_ents summary_ents sources summaries false w
  = (Ok (source_ents, summary_ents, coverage sources summaries), w).
Proof. reflexivity. Qed.

Lemma compare_triples_silent (sources summaries : gset triple) (w : World) :
  compare_triples sources summaries false w = (Ok (coverage sources summaries), w).
Proof. reflexivity. Qed.

(** Rewrite the run of the first computation of a sequence. *)
Ltac run_with tac := erewrite run_bind by tac.

Ltac run_call :=
  first
    [ apply _segment_run
    | apply call_ner_run; reflexivity
    | apply call_rel_run; reflexivity
    | apply call_qg_run; reflexivity
    | apply call_qa_run; reflexivity
    | apply call_ie_run; reflexivity
    | apply call_bert_score_run; reflexivity
    | apply get_facts_calls; reflexivity
    | reflexivity ].

Ltac run := repeat (run_with run_call).

(** Close a goal on two worlds that differ in how the trace is grouped. *)
Ltac same_world :=
  unfold traced;
  cbn [self trace stdout set_ner set_rel set_qg set_qa set_bert_score set_ie
       ner rel qg qa bert_score ie load_of models_of slot_model default
       ner_m rel_m qg_m qa_m ie_m bert_score_m];
  rewrite <- ?app_assoc; reflexivity.

Section silent_runs.
Context (E : Externals).

Lemma extract_facts_silent (source summary device : string) (w : World) :
  together (ner (self w)) (rel (self w)) ->
  extract_facts E source summary false device w
  = (Ok (ner_m (models_of E device (self w)) (segmented E source),
         ner_m (models_of E device (self w)) (segmented E summary),
         pair_fact_score E (models_of E device (self w)) (source, summary)),
     {| self := set_rel (Model (rel_m (models_of E device (self w))))
                  (set_ner (Model (ner_m (models_of E device (self w))))
                     (self w));
        trace := trace w ++ load_of NER device (ner (self w))
                 ++ load_of RE device (rel (self w))
                 ++ [Call Segmenter [[source]]; Call Segmenter [[summary]];
                     Call NER [segmented E source];
                     Call NER [segmented E summary]]
                 ++ rel_calls (build_perm (segmented E source)
                      (ner_m (models_of E device (self w)) (segmented E source)))
                 ++ rel_calls (build_perm (segmented E summary)
                      (ner_m (models_of E device (self w))
                         (segmented E summary)));
        stdout := stdout w |}).
Proof.
  destruct w as [[n r g a b i] t o]. cbn [self ner rel].
  destruct n as [ner_name|ner_h], r as [rel_name|rel_h]; try done; intros _;
    unfold extract_facts; run; rewrite compare_facts_silent;
    same_world.
Qed.

(** X12: When the NER and RE slots are both unloaded or both loaded, a silent
    call of [extract_facts] succeeds: it loads the two models if needed,
    returns the entity lists of the source and summary sentences and the
    coverage of the two fact sets, leaves the other slots alone, and calls
    the segmenter twice, the NER model twice and the RE model once per
    sentence. *)
Theorem extract_facts_run (source summary : string) (device : string)
    (w : World) :
  together (ner (self w)) (rel (self w)) ->
  exists w',
    extract_facts E source summary false device w
    = (Ok (ner_m (models_of E device (self w)) (segmented E source),
           ner_m (models_of E device (self w)) (segmented E summary),
           pair_fact_score E (models_of E device (self w)) (source, summary)),
       w') /\
    self w' = set_rel (Model (rel_m (models_of E device (self w))))
                (set_ner (Model (ner_m (models_of E device (self w))))
                   (self w)) /\
    trace w' = trace w ++ load_of NER device (ner (self w))
               ++ load_of RE device (rel (self w))
               ++ [Call Segmenter [[source]]; Call Segmenter [[summary]];
                   Call NER [segmented E source];
                   Call NER [segmented E summary]]
               ++ rel_calls (build_perm (segmented E source)
                    (ner_m (models_of E device (self w)) (segmented E source)))
               ++ rel_calls (build_perm (segmented E summary)
                    (ner_m (models_of E device (self w))
                       (segmented E summary))) /\
    stdout w' = stdout w.
Proof.
  intros Hready. eexists. split.
  - apply (extract_facts_silent source summary device w Hready).
  - by repeat split.
Qed.

Lemma load_qg_qa_run (device : string) (w : World) :
  together (qg (self w)) (qa (self w)) ->
  match qg (self w), qa (self w) with
  | Name qg_name, Name qa_name =>
      emit (Load QG [qg_name; device]);;
      modify_self (set_qg (Model (load_qg E qg_name device)));;
      emit (Load QA [qa_name; device]);;
      modify_self (set_qa (Model (load_qa E qa_name device)))
  | _, _ => mret ()
  end w
  = (Ok (),
     {| self := set_qa (Model (qa_m (models_of E device (self w))))
                  (set_qg (Model (qg_m (models_of E device (self w))))
                     (self w));
        trace := trace w ++ load_of QG device (qg (self w))
                 ++ load_of QA device (qa (self w));
        stdout := stdout w |}).
Proof.
  destruct w as [[n r g a b i] t o]. cbn [self qg qa].
  destruct g, a; try done; intros _;
    unfold mbind, M_bind, mret, M_ret, emit, modify_self; cbn;
    by rewrite ?app_nil_r, <- ?app_assoc.
Qed.

Lemma load_ner_run (device : string) (w : World) :
  match ner (self w) with
  | Name ner_name =>
      emit (Load NER [ner_name; device]);;
      modify_self (set_ner (Model (load_ner E ner_name device)))
  | Model _ => mret ()
  end w
  = (Ok (),
     {| self := set_ner (Model (ner_m (models_of E device (self w)))) (self w);
        trace := trace w ++ load_of NER device (ner (self w));
        stdout := stdout w |}).
Proof.
  destruct w as [[n r g a b i] t o]. cbn [self ner].
  destruct n; unfold mbind, M_bind, mret, M_ret, emit, modify_self; cbn;
    by rewrite ?app_nil_r.
Qed.

Lemma given_or_call_ner_run (h : NerModel) (lines : list string)
    (ents : option (list (list Entity))) (w : World) :
  ner (self w) = Model h ->
  match ents with
  | None => call_ner lines
  | Some ents => mret ents
  end w
  = (Ok (default (h lines) ents),
     traced (match ents with None => [Call NER [lines]] | Some _ => [] end) w).
Proof.
  intros H. destruct ents; [by rewrite traced_nil|by apply call_ner_run].
Qed.

Lemma extract_qas_silent (source summary : string)
    (source_ents summary_ents : option (list (list Entity)))
    (device : string) (w : World) :
  together (qg (self w)) (qa (self w)) ->
  extract_qas E source summary source_ents summary_ents false device w
  = (Ok (qags_score E
           (qa_m (models_of E device (self w)) source
              (questions_of E (models_of E device (self w)) summary
                 (default (ner_m (models_of E device (self w))
                             (segmented E summary)) summary_ents)))
           (qa_m (models_of E device (self w)) summary
              (questions_of E (models_of E device (self w)) summary
                 (default (ner_m (models_of E device (self w))
                             (segmented E summary)) summary_ents)))),
     {| self := set_ner (Model (ner_m (models_of E device (self w))))
                  (set_qa (Model (qa_m (models_of E device (self w))))
                     (set_qg (Model (qg_m (models_of E device (self w))))
                        (self w)));
        trace := trace w ++ load_of QG device (qg (self w))
                 ++ load_of QA device (qa (self w))
                 ++ load_of NER device (ner (self w))
                 ++ [Call Segmenter [[source]]; Call Segmenter [[summary]]]
                 ++ match source_ents with
                    | None => [Call NER [segmented E source]]
                    | Some _ => []
                    end
                 ++ match summary_ents with
                    | None => [Call NER [segmented E summary]]
                    | Some _ => []
                    end
                 ++ [Call QG [segmented E summary];
                     Call QA [[source];
                       q_question
                       <$> questions_of E (models_of E device (self w)) summary
                             (default (ner_m (models_of E device (self w))
                                         (segmented E summary)) summary_ents)];
                     Call QA [[summary];
                       q_question
                       <$> questions_of E (models_of E device (self w)) summary
                             (default (ner_m (models_of E device (self w))
                                         (segmented E summary)) summary_ents)]];
        stdout := stdout w |}).
Proof.
  intros Hready. unfold extract_qas.
  run_with run_call. run_with ltac:(apply load_qg_qa_run; exact Hready).
  run_with run_call. run_with ltac:(apply load_ner_run).
  run_with run_call. run_with run_call.
  run_with ltac:(apply given_or_call_ner_run; reflexivity).
  run_with ltac:(apply given_or_call_ner_run; reflexivity).
  run. same_world.
Qed.


Lemma load_ie_run (device : string) (w : World) :
  match ie (self w) with
  | None => emit (Load OpenIE []);; modify_self (set_ie (Some (load_ie E)))
  | Some _ => mret ()
  end w
  = (Ok (),
     {| self := set_ie (Some (ie_m (models_of E device (self w)))) (self w);
        trace := trace w ++ match ie (self w) with
                            | None => [Load OpenIE []]
                            | Some _ => []
                            end;
        stdout := stdout w |}).
Proof.
  destruct w as [[n r g a b i] t o]. cbn [self ie].
  destruct i; unfold mbind, M_bind, mret, M_ret, emit, modify_self; cbn;
    by rewrite ?app_nil_r.
Qed.

Lemma extract_triples_silent (source summary device : string) (w : World) :
  extract_triples E source summary false w
  = (Ok (pair_triple_score (models_of E device (self w)) (source, summary)),
     {| self := set_ie (Some (ie_m (models_of E device (self w)))) (self w);
        trace := trace w ++ match ie (self w) with
                            | None => [Load OpenIE []]
                            | Some _ => []
                            end
                 ++ [Call OpenIE [[source]]; Call OpenIE [[summary]]];
        stdout := stdout w |}).
Proof.
  unfold extract_triples.
  run_with run_call. run_with ltac:(apply (load_ie_run device)).
  run. rewrite compare_triples_silent. same_world.
Qed.

(** X15: [extract_triples] never fails: it loads the OpenIE model if the slot is
    empty, runs it on the full source and then on the full summary, and
    returns the coverage of the two triple sets; no other slot changes. *)
Theorem extract_triples_run (source summary : string) (verbose : bool)
    (device : string) (w : World) :
  exists w',
    extract_triples E source summary verbose w
    = (Ok (pair_triple_score (models_of E device (self w)) (source, summary)),
       w') /\
    self w' = set_ie (Some (ie_m (models_of E device (self w)))) (self w) /\
    trace w' = trace w ++ match ie (self w) with
                          | None => [Load OpenIE []]
                          | Some _ => []
                          end
               ++ [Call OpenIE [[source]]; Call OpenIE [[summary]]].
Proof.
  apply (run_of_sim _ _ _ _ _
           (sim_extract_triples E source summary verbose false)
           (extract_triples_silent source summary device w)).
Qed.

Lemma calculate_rouge_silent (source summary : string) (w : World) :
  calculate_rouge E source summary false w
  = (Ok (pair_rouge E (source, summary)),
     traced [Call Segmenter [[source]];
             Call Rouge [[summary]; segmented E source];
             Call Rouge [[summary]; segmented E source];
             Call Rouge [[summary]; segmented E source]] w).
Proof. unfold calculate_rouge. run. same_world. Qed.

(** X16: [calculate_rouge] never fails and needs no model: it segments the source
    once, asks the ROUGE calculator three times with the whole summary
    against the source sentences, and leaves the instance as it was. *)
Theorem calculate_rouge_run (source summary : string) (verbose : bool)
    (w : World) :
  exists w',
    calculate_rouge E source summary verbose w
    = (Ok (rouge_n E summary (segmented E source) 1,
           rouge_n E summary (segmented E source) 2,
           rouge_l E summary (segmented E source)), w') /\
    self w' = self w /\
    trace w' = trace w ++ [Call Segmenter [[source]];
                           Call Rouge [[summary]; segmented E source];
                           Call Rouge [[summary]; segmented E source];
                           Call Rouge [[summary]; segmented E source]].
Proof.
  apply (run_of_sim _ _ _ _ _
           (sim_calculate_rouge E source summary verbose false)
           (calculate_rouge_silent source summary w)).
Qed.

Lemma load_bert_score_run (device : string) (w : World) :
  match bert_score (self w) with
  | Name name =>
      emit (Load BertScore [name; device]);;
      modify_self (set_bert_score (Model (load_bert_score E name device)))
  | Model _ => mret ()
  end w
  = (Ok (),
     {| self := set_bert_score
                  (Model (bert_score_m (models_of E device (self w)))) (self w);
        trace := trace w ++ load_of BertScore device (bert_score (self w));
        stdout := stdout w |}).
Proof.
  destruct w as [[n r g a b i] t o]. cbn [self bert_score].
  destruct b; unfold mbind, M_bind, mret, M_ret, emit, modify_self; cbn;
    by rewrite ?app_nil_r.
Qed.

Lemma calculate_bert_score_silent (source summary device : string) (w : World) :
  Forall (fun score => 2 <= length score)
    (bert_score_m (models_of E device (self w)) [summary; "dummy"]
       (segmented E source)) ->
  calculate_bert_score E source summary false device w
  = (Ok (pair_bert_score E (models_of E device (self w)) (source, summary)),
     {| self := set_bert_score
                  (Model (bert_score_m (models_of E device (self w)))) (self w);
        trace := trace w ++ load_of BertScore device (bert_score (self w))
                 ++ [Call Segmenter [[source]];
                     Call BertScore [[summary; "dummy"]; segmented E source]];
        stdout := stdout w |}).
Proof.
  intros Hlen. unfold calculate_bert_score.
  run_with run_call. run_with ltac:(apply load_bert_score_run).
  run_with run_call. run_with run_call.
  run_with ltac:(apply filtered_scores_fold; by apply Forall_forall).
  run. same_world.
Qed.

Lemma index_run {A} (l : list A) (i : nat) (x : A) (w : World) :
  l !! i = Some x -> index l i w = (Ok x, w).
Proof. intros H. unfold index. by rewrite H. Qed.

Lemma nth_score_lookup (l : list Qc) (i : nat) (x : Qc) :
  l !! i = Some x -> nth_score i l = x.
Proof. intros H. unfold nth_score. by rewrite H. Qed.

Lemma models_of_loaded (device : string) (m : Models) :
  models_of E device (loaded m) = m.
Proof. by destruct m. Qed.

Lemma accumulate_silent (device : string) (totals : Totals)
    (pair : string * string) (w : World) :
  together (ner (self w)) (rel (self w)) ->
  together (qg (self w)) (qa (self w)) ->
  well_shaped (bert_score_m (models_of E device (self w)) [pair.2; "dummy"]
                 (segmented E pair.1)) ->
  exists w',
    accumulate E false device totals pair w
    = (Ok (add_pair E (models_of E device (self w)) totals pair), w') /\
    self w' = loaded (models_of E device (self w)) /\
    stdout w' = stdout w.
Proof.
  destruct pair as [source summary]. cbn [fst snd].
  intros Hfacts Hqas [Hthree Hlen]. unfold accumulate.
  run_with ltac:(apply extract_facts_silent; exact Hfacts).
  cbv beta iota. cbn [self].
  run_with ltac:(apply extract_qas_silent; exact Hqas). cbn [self].
  run_with ltac:(apply (extract_triples_silent _ _ device)). cbn [self].
  run_with ltac:(apply calculate_rouge_silent).
  unfold pair_rouge at 1. cbv beta iota. cbn [self traced fst snd].
  run_with ltac:(apply calculate_bert_score_silent; exact Hlen). cbn [self].
  assert (exists b0 b1 b2 rest,
    pair_bert_score E (models_of E device (self w)) (source, summary)
    = b0 :: b1 :: b2 :: rest) as (b0 & b1 & b2 & rest & Hbert).
  { unfold pair_bert_score. cbn [fst snd].
    destruct (bert_score_m _ _ _) as [|s0 [|s1 [|s2 rest]]];
      simpl in Hthree; try lia.
    by eexists _, _, _, _. }
  run_with ltac:(apply (index_run _ 0 b0); exact (f_equal (.!! 0) Hbert)).
  run_with ltac:(apply (index_run _ 1 b1); exact (f_equal (.!! 1) Hbert)).
  run_with ltac:(apply (index_run _ 2 b2); exact (f_equal (.!! 2) Hbert)).
  eexists. split.
  { unfold add_pair.
    rewrite (nth_score_lookup _ 0 b0 (f_equal (.!! 0) Hbert)),
      (nth_score_lookup _ 1 b1 (f_equal (.!! 1) Hbert)),
      (nth_score_lookup _ 2 b2 (f_equal (.!! 2) Hbert)).
    reflexivity. }
  split; reflexivity.
Qed.

Lemma together_loaded_ner_rel (m : Models) :
  together (ner (loaded m)) (rel (loaded m)).
Proof. exact I. Qed.

Lemma together_loaded_qg_qa (m : Models) :
  together (qg (loaded m)) (qa (loaded m)).
Proof. exact I. Qed.

Lemma accumulate_fold_silent (device : string) (m : Models)
    (pairs : list (string * string)) (totals : Totals) (w : World) :
  models_of E device (self w) = m ->
  together (ner (self w)) (rel (self w)) ->
  together (qg (self w)) (qa (self w)) ->
  Forall (fun pair =>
            well_shaped (bert_score_m m [pair.2; "dummy"] (segmented E pair.1)))
    pairs ->
  exists w',
    foldM (accumulate E false device) totals pairs w
    = (Ok (foldl (add_pair E m) totals pairs), w') /\
    stdout w' = stdout w /\
    (pairs ≠ [] -> self w' = loaded m).
Proof.
  revert totals w. induction pairs as [|pair pairs IH];
    intros totals w Hm Hfacts Hqas Hshape.
  - exists w. by repeat split.
  - apply Forall_cons in Hshape as [Hpair Hshape]. rewrite <- Hm in Hpair.
    destruct (accumulate_silent device totals pair w Hfacts Hqas Hpair)
      as (w1 & Hrun & Hself & Hout).
    rewrite Hm in Hrun, Hself.
    destruct (IH (add_pair E m totals pair) w1) as (w' & Hrest & Hout' & Hself').
    + rewrite Hself. apply models_of_loaded.
    + rewrite Hself. apply together_loaded_ner_rel.
    + rewrite Hself. apply together_loaded_qg_qa.
    + done.
    + exists w'. cbn [foldM foldl]. rewrite (run_bind _ _ _ _ _ Hrun).
      split; [done|]. split; [congruence|]. intros _.
      destruct pairs as [|pair' pairs]; [|by apply Hself'].
      cbn in Hrest. by injection Hrest as <-.
Qed.

Lemma foldl_add_pair_fact (m : Models) (pairs : list (string * string))
    (totals : Totals) :
  fact_scores (foldl (add_pair E m) totals pairs)
  = foldl Qcplus (fact_scores totals) (pair_fact_score E m <$> pairs).
Proof. revert totals. induction pairs; intros; [done|apply IHpairs]. Qed.

Lemma foldl_add_pair_qa (m : Models) (pairs : list (string * string))
    (totals : Totals) :
  qags_scores (foldl (add_pair E m) totals pairs)
  = foldl Qcplus (qags_scores totals) (pair_qa_score E m <$> pairs).
Proof. revert totals. induction pairs; intros; [done|apply IHpairs]. Qed.

Lemma foldl_add_pair_triple (m : Models) (pairs : list (string * string))
    (totals : Totals) :
  triple_scores (foldl (add_pair E m) totals pairs)
  = foldl Qcplus (triple_scores totals) (pair_triple_score m <$> pairs).
Proof. revert totals. induction pairs; intros; [done|apply IHpairs]. Qed.

Lemma foldl_add_pair_rouges (m : Models) (pairs : list (string * string))
    (totals : Totals) :
  rouges (foldl (add_pair E m) totals pairs)
  = (foldl Qcplus (rouges totals).1.1
       ((fun pair => (pair_rouge E pair).1.1) <$> pairs),
     foldl Qcplus (rouges totals).1.2
       ((fun pair => (pair_rouge E pair).1.2) <$> pairs),
     foldl Qcplus (rouges totals).2
       ((fun pair => (pair_rouge E pair).2) <$> pairs)).
Proof.
  revert totals. induction pairs as [|pair pairs IH]; intros totals.
  - cbn. by destruct (rouges totals) as [[? ?] ?].
  - apply IH.
Qed.

Lemma foldl_add_pair_bert_scores (m : Models) (pairs : list (string * string))
    (totals : Totals) :
  bert_scores (foldl (add_pair E m) totals pairs)
  = (foldl Qcplus (bert_scores totals).1.1
       ((fun pair => nth_score 0 (pair_bert_score E m pair)) <$> pairs),
     foldl Qcplus (bert_scores totals).1.2
       ((fun pair => nth_score 1 (pair_bert_score E m pair)) <$> pairs),
     foldl Qcplus (bert_scores totals).2
       ((fun pair => nth_score 2 (pair_bert_score E m pair)) <$> pairs)).
Proof.
  revert totals. induction pairs as [|pair pairs IH]; intros totals.
  - cbn. by destruct (bert_scores totals) as [[? ?] ?].
  - apply IH.
Qed.

Lemma call_silent (device : string) (sources summaries : list string)
    (totals : Totals) (w w0 : World) :
  length sources = length summaries ->
  sources ≠ [] ->
  foldM (accumulate E false device) zero_totals (zip sources summaries) w
  = (Ok totals, w0) ->
  __call__ E (Lst sources) (Lst summaries) false device w
  = (Ok {| m_fact_score := fact_scores totals / Qc_of_nat (length sources);
           m_qa_score := qags_scores totals / Qc_of_nat (length sources);
           m_triple_score := triple_scores totals / Qc_of_nat (length sources);
           m_rouge :=
             ((rouges totals).1.1 / Qc_of_nat (length sources),
              (rouges totals).1.2 / Qc_of_nat (length sources),
              (rouges totals).2 / Qc_of_nat (length sources));
           m_bert_score :=
             {| precision := (bert_scores totals).1.1;
                recall := (bert_scores totals).1.2;
                f1 := (bert_scores totals).2 |} |}%Qc, w0).
Proof.
  intros Hlen Hne Hfold. unfold __call__. cbn [len items].
  rewrite decide_False by (by intros H; apply H).
  rewrite (run_bind _ _ _ _ _ Hfold).
  destruct sources as [|source sources]; [done|]. reflexivity.
Qed.


End silent_runs.

Lemma extract_facts_run_witness :
  exists w',
    extract_facts Toy.env "Paris is the capital of France."
      "Paris is the capital of France." false "cpu" Toy.fresh
    = (Ok (Toy.ner_model ["Paris is the capital of France."],
           Toy.ner_model ["Paris is the capital of France."],
           pair_fact_score Toy.env (models_of Toy.env "cpu" (self Toy.fresh))
             ("Paris is the capital of France.",
              "Paris is the capital of France.")), w').
Proof.
  destruct (extract_facts_run Toy.env "Paris is the capital of France."
              "Paris is the capital of France." "cpu" Toy.fresh I)
    as (w' & Hrun & _).
  exists w'. exact Hrun.
Defined.



Lemma extract_facts_with_unloaded_rel_witness :
  exists w',
    extract_facts Toy.env "Paris is in France." "Paris is French." false "cpu"
      {| self := set_ner (Model Toy.ner_model) (self Toy.fresh);
         trace := []; stdout := [] |}
    = (Raise TypeError, w') /\
    self w' = set_ner (Model Toy.ner_model) (self Toy.fresh).
Proof.
  apply (extract_facts_with_unloaded_rel Toy.env "Paris is in France."
           "Paris is French." false "cpu"
           {| self := set_ner (Model Toy.ner_model) (self Toy.fresh);
              trace := []; stdout := [] |} Toy.ner_model "rel").
  - reflexivity.
  - reflexivity.
  - simpl. discriminate.
Defined.

(** ** Identical texts, malformed similarity scores *)

Lemma triples_of_empty (l : list IETriple) :
  list_to_set (C:=gset triple) (as_tuple <$> l) = ∅ <-> l = [].
Proof.
  split; [|by intros ->].
  destruct l as [|x l]; [done|]. intros H.
  assert (as_tuple x ∈ (∅ : gset triple)) as Hin; [|by apply elem_of_empty in Hin].
  rewrite <- H. apply elem_of_list_to_set. left.
Qed.

(** X18: A text compared with itself gets the open-triple score 1, unless the
    extractor finds no triple in it, which gives 0. *)
Theorem identical_texts_triple_score (E : Externals) (doc : string)
    (verbose : bool) (w : World) :
  exists w',
    extract_triples E doc doc verbose w
    = (Ok (match default (load_ie E) (ie (self w)) doc with
           | [] => 0%Qc
           | _ :: _ => 1%Qc
           end), w').
Proof.
  destruct (run_of_sim _ _ _ _ _
              (sim_extract_triples E doc doc verbose false)
              (extract_triples_silent E doc doc "" w)) as (w' & Hrun & _).
  exists w'. rewrite Hrun. do 2 f_equal.
  unfold pair_triple_score. cbn [fst snd]. rewrite coverage_diag.
  unfold triples_of. cbn [ie_m models_of].
  destruct (default (load_ie E) (ie (self w)) doc) as [|x l] eqn:Hl.
  - by rewrite decide_True.
  - rewrite decide_False; [done|]. by intros H%triples_of_empty.
Qed.



Lemma filtered_scores_fold_raise (scores pre : list (list Qc)) (bad : list Qc)
    (post : list (list Qc)) (acc : list Qc) (w : World) :
  scores = pre ++ bad :: post ->
  Forall (fun score => 2 <= length score) pre ->
  length bad < 2 ->
  foldM (fun filtered_scores score =>
           score ← pop_last score;
           mean ← divide (sum score) (length score);
           mret (filtered_scores ++ [mean])) acc scores w
  = (Raise (match bad with [] => IndexError | _ :: _ => ZeroDivisionError end),
     w).
Proof.
  intros -> Hpre Hbad. revert acc.
  induction Hpre as [|score pre Hscore Hpre IH]; intros acc.
  - cbn [app foldM]. apply run_bind_raise.
    destruct bad as [|x [|y bad]]; simpl in Hbad; try lia; reflexivity.
  - cbn [app foldM].
    erewrite run_bind; [apply IH|].
    destruct score as [|x [|y score]]; simpl in Hscore; try lia. reflexivity.
Qed.

(** X20: A score list without entries makes [calculate_bert_score] raise
    [IndexError] (nothing to pop); a score list with a single entry makes it
    raise [ZeroDivisionError] (the mean of nothing), with or without the
    verbose flag. *)
Theorem calculate_bert_score_short_list (E : Externals)
    (source summary : string) (verbose : bool) (device : string) (w : World)
    (pre : list (list Qc)) (bad : list Qc) (post : list (list Qc)) :
  bert_score_m (models_of E device (self w)) [summary; "dummy"]
    (segmented E source) = pre ++ bad :: post ->
  Forall (fun score => 2 <= length score) pre ->
  length bad < 2 ->
  exists w',
    calculate_bert_score E source summary verbose device w
    = (Raise (match bad with [] => IndexError | _ :: _ => ZeroDivisionError end),
       w').
Proof.
  intros Hscores Hpre Hbad. unfold calculate_bert_score.
  run_with run_call. run_with ltac:(apply (load_bert_score_run E)).
  run_with run_call. run_with run_call. cbn [self].
  eexists. apply run_bind_raise.
  by apply (filtered_scores_fold_raise _ pre bad post).
Qed.

Lemma calculate_bert_score_short_list_witness :
  exists w',
    calculate_bert_score
      (Toy.env_scoring [[1%Qc; 0%Qc]; [1%Qc]; []])
      "Paris is in France." "Paris is French." true "cpu" Toy.fresh
    = (Raise ZeroDivisionError, w').
Proof.
  apply (calculate_bert_score_short_list
           (Toy.env_scoring [[1%Qc; 0%Qc]; [1%Qc]; []]) "Paris is in France."
           "Paris is French." true "cpu" Toy.fresh
           [[1%Qc; 0%Qc]] [1%Qc] [[]]).
  - reflexivity.
  - repeat constructor.
  - simpl. lia.
Defined.

(** X21: With fewer than three score lists the verbose flag changes the outcome
    of [calculate_bert_score] on its own: the silent call returns the means,
    the verbose call raises [IndexError] in its report. *)
Theorem calculate_bert_score_verbose_needs_three (E : Externals)
    (source summary device : string) (w : World) :
  Forall (fun score => 2 <= length score)
    (bert_score_m (models_of E device (self w)) [summary; "dummy"]
       (segmented E source)) ->
  length (bert_score_m (models_of E device (self w)) [summary; "dummy"]
            (segmented E source)) < 3 ->
  (exists w',
     calculate_bert_score E source summary false device w
     = (Ok (mean_without_last
            <$> bert_score_m (models_of E device (self w)) [summary; "dummy"]
                  (segmented E source)), w')) /\
  (exists w',
     calculate_bert_score E source summary true device w
     = (Raise IndexError, w')).
Proof.
  intros Hlen Hfew. split.
  - eexists. by apply calculate_bert_score_silent.
  - unfold calculate_bert_score.
    run_with run_call. run_with ltac:(apply (load_bert_score_run E)).
    run_with run_call. run_with run_call. cbn [self].
    run_with ltac:(apply filtered_scores_fold; by apply Forall_forall).
    unfold segmented in Hfew.
    destruct (bert_score_m _ _ _) as [|s0 [|s1 [|s2 rest]]];
      simpl in Hfew; try lia; eexists; reflexivity.
Qed.

Lemma calculate_bert_score_verbose_needs_three_witness :
  (exists w',
     calculate_bert_score
       (Toy.env_scoring [[1%Qc; 0%Qc]; [1%Qc; 0%Qc]])
       "Paris is in France." "Paris is French." false "cpu" Toy.fresh
     = (Ok (mean_without_last <$> [[1%Qc; 0%Qc]; [1%Qc; 0%Qc]]), w')) /\
  (exists w',
     calculate_bert_score
       (Toy.env_scoring [[1%Qc; 0%Qc]; [1%Qc; 0%Qc]])
       "Paris is in France." "Paris is French." true "cpu" Toy.fresh
     = (Raise IndexError, w')).
Proof.
  apply (calculate_bert_score_verbose_needs_three
           (Toy.env_scoring [[1%Qc; 0%Qc]; [1%Qc; 0%Qc]]) "Paris is in France."
           "Paris is French." "cpu" Toy.fresh).
  - repeat constructor.
  - simpl. lia.
Defined.

(** ** What a run leaves alone *)

Lemma frames_ret {A X} (f : World -> X) (a : A) : frames f (mret a).
Proof. by intros w. Qed.

Lemma frames_raise {A X} (f : World -> X) (e : exn) : frames f (raise (A:=A) e).
Proof. by intros w. Qed.

Lemma frames_get_self {X} (f : World -> X) : frames f get_self.
Proof. by intros w. Qed.

Lemma frames_bind {A B X} (f : World -> X) (m : M A) (k : A -> M B) :
  frames f m -> (forall a, frames f (k a)) -> frames f (m ≫= k).
Proof.
  intros Hm Hk w. unfold mbind, M_bind. specialize (Hm w).
  destruct (m w) as [[a|e] w1]; simpl in *; [|done].
  by rewrite Hk.
Qed.

Lemma frames_foldM {A B X} (f : World -> X) (g : A -> B -> M A) (a : A)
    (l : list B) :
  (forall a x, frames f (g a x)) -> frames f (foldM g a l).
Proof.
  intros Hg. revert a. induction l as [|x l IH]; intros a; simpl.
  - apply frames_ret.
  - apply frames_bind; [apply Hg|apply IH].
Qed.

Lemma frames_when_false {X} (f : World -> X) (p : M ()) : frames f (when false p).
Proof. apply frames_ret. Qed.

Lemma frames_when {X} (f : World -> X) (v : bool) (p : M ()) :
  frames f p -> frames f (when v p).
Proof. intros Hp. destruct v; [done|apply frames_ret]. Qed.

Lemma frames_index {A X} (f : World -> X) (l : list A) (i : nat) :
  frames f (index l i).
Proof. unfold index. destruct (l !! i); [apply frames_ret|apply frames_raise]. Qed.

Lemma frames_divide {X} (f : World -> X) (x : Qc) (n : nat) :
  frames f (divide x n).
Proof. destruct n; [apply frames_raise|apply frames_ret]. Qed.

Lemma frames_pop_last {A X} (f : World -> X) (l : list A) :
  frames f (pop_last l).
Proof. destruct l; [apply frames_raise|apply frames_ret]. Qed.

Lemma self_emit (e : event) : frames self (emit e).
Proof. by intros w. Qed.

Lemma self_print (l : line) : frames self (print l).
Proof. by intros w. Qed.

Lemma stdout_emit (e : event) : frames stdout (emit e).
Proof. by intros w. Qed.

Lemma stdout_modify_self (g : FactSumm -> FactSumm) :
  frames stdout (modify_self g).
Proof. by intros w. Qed.

Create HintDb frames.

#[local] Hint Resolve frames_ret frames_raise frames_get_self frames_index
  frames_divide frames_pop_last frames_when_false self_emit self_print
  stdout_emit stdout_modify_self : frames.

Ltac frames_step :=
  lazymatch goal with
  | |- frames _ (when false _) => apply frames_when_false
  | |- frames _ (when _ _) => apply frames_when
  | |- frames _ (foldM _ _ _) => apply frames_foldM; intros ? ?
  | |- frames _ (forM_ _ _) => apply frames_foldM; intros ? ?
  | |- frames _ (_ ≫= _) => apply frames_bind; [|intros ?]
  | |- frames _ (match ?x with _ => _ end) => destruct x
  | |- _ => solve [auto with frames]
  end.

Ltac frames_auto := cbv beta; repeat (frames_step; cbv beta).

Section frames.
Context (E : Externals).

Lemma self_call_ner lines : frames self (call_ner lines).
Proof. unfold call_ner. frames_auto. Qed.

Lemma self_call_rel perm : frames self (call_rel perm).
Proof. unfold call_rel. frames_auto. Qed.

Lemma self_call_qg lines ents : frames self (call_qg lines ents).
Proof. unfold call_qg. frames_auto. Qed.

Lemma self_call_qa context qas : frames self (call_qa context qas).
Proof. unfold call_qa. frames_auto. Qed.

Lemma self_call_ie doc : frames self (call_ie doc).
Proof. unfold call_ie. frames_auto. Qed.

Lemma self_call_bert_score cands refs :
  frames self (call_bert_score cands refs).
Proof. unfold call_bert_score. frames_auto. Qed.

Lemma stdout_call_ner lines : frames stdout (call_ner lines).
Proof. unfold call_ner. frames_auto. Qed.

Lemma stdout_call_rel perm : frames stdout (call_rel perm).
Proof. unfold call_rel. frames_auto. Qed.

Lemma stdout_call_qg lines ents : frames stdout (call_qg lines ents).
Proof. unfold call_qg. frames_auto. Qed.

Lemma stdout_call_qa context qas : frames stdout (call_qa context qas).
Proof. unfold call_qa. frames_auto. Qed.

Lemma stdout_call_ie doc : frames stdout (call_ie doc).
Proof. unfold call_ie. frames_auto. Qed.

Lemma stdout_call_bert_score cands refs :
  frames stdout (call_bert_score cands refs).
Proof. unfold call_bert_score. frames_auto. Qed.

Lemma self__segment doc : frames self (_segment E doc).
Proof. unfold _segment. frames_auto. Qed.

Lemma stdout__segment doc : frames stdout (_segment E doc).
Proof. unfold _segment. frames_auto. Qed.

#[local] Hint Resolve self_call_ner self_call_rel self_call_qg self_call_qa
  self_call_ie self_call_bert_score stdout_call_ner stdout_call_rel
  stdout_call_qg stdout_call_qa stdout_call_ie stdout_call_bert_score
  self__segment stdout__segment : frames.

Lemma self_get_facts lines entities : frames self (get_facts lines entities).
Proof. unfold get_facts. frames_auto. Qed.

Lemma stdout_get_facts lines entities : frames stdout (get_facts lines entities).
Proof. unfold get_facts. frames_auto. Qed.

Lemma self__print_entities mode ents : frames self (_print_entities mode ents).
Proof. unfold _print_entities. frames_auto. Qed.

Lemma self__print_facts mode facts : frames self (_print_facts mode facts).
Proof. unfold _print_facts. frames_auto. Qed.

Lemma self__print_triples mode triples :
  frames self (_print_triples mode triples).
Proof. unfold _print_triples. frames_auto. Qed.

Lemma self__print_qas mode questions : frames self (_print_qas mode questions).
Proof. unfold _print_qas. frames_auto. Qed.

#[local] Hint Resolve self_get_facts stdout_get_facts self__print_entities
  self__print_facts self__print_triples self__print_qas : frames.

Lemma self_compare_facts (source_ents summary_ents : list (list Entity))
    (sources summaries : gset triple) (verbose : bool) :
  frames self (compare_facts source_ents summary_ents sources summaries verbose).
Proof. unfold compare_facts. destruct (_filter_out _ _). frames_auto. Qed.

Lemma stdout_compare_facts (source_ents summary_ents : list (list Entity))
    (sources summaries : gset triple) :
  frames stdout (compare_facts source_ents summary_ents sources summaries false).
Proof. unfold compare_facts. destruct (_filter_out _ _). frames_auto. Qed.

Lemma self_compare_triples (sources summaries : gset triple) (verbose : bool) :
  frames self (compare_triples sources summaries verbose).
Proof. unfold compare_triples. destruct (_filter_out _ _). frames_auto. Qed.

Lemma stdout_compare_triples (sources summaries : gset triple) :
  frames stdout (compare_triples sources summaries false).
Proof. unfold compare_triples. destruct (_filter_out _ _). frames_auto. Qed.

#[local] Hint Resolve self_compare_facts stdout_compare_facts
  self_compare_triples stdout_compare_triples : frames.

Lemma stdout_extract_facts source summary device :
  frames stdout (extract_facts E source summary false device).
Proof. unfold extract_facts. frames_auto. Qed.

Lemma stdout_extract_qas source summary source_ents summary_ents device :
  frames stdout
    (extract_qas E source summary source_ents summary_ents false device).
Proof. unfold extract_qas. frames_auto. Qed.

Lemma stdout_extract_triples source summary :
  frames stdout (extract_triples E source summary false).
Proof. unfold extract_triples. frames_auto. Qed.

Lemma stdout_calculate_rouge source summary :
  frames stdout (calculate_rouge E source summary false).
Proof. unfold calculate_rouge. frames_auto. Qed.

Lemma stdout_calculate_bert_score source summary device :
  frames stdout (calculate_bert_score E source summary false device).
Proof. unfold calculate_bert_score. frames_auto. Qed.

#[local] Hint Resolve stdout_extract_facts stdout_extract_qas
  stdout_extract_triples stdout_calculate_rouge stdout_calculate_bert_score
  : frames.

Lemma stdout_accumulate device totals pair :
  frames stdout (accumulate E false device totals pair).
Proof.
  unfold accumulate. destruct pair as [source summary].
  frames_auto; destruct a as [[? ?] ?]; frames_auto.
Qed.

Lemma stdout___call__ sources summaries device :
  frames stdout (__call__ E sources summaries false device).
Proof.
  unfold __call__.
  destruct sources, summaries; cbv beta iota; case_decide;
    try apply frames_raise;
    (apply frames_bind;
     [apply frames_foldM; intros; apply stdout_accumulate|]);
    intros totals; frames_auto.
Qed.

End frames.

(** X22: Without the verbose flag nothing is printed: every scoring method and
    the entry point leave the output as it was, in every state and whether
    they return or raise. *)
Theorem silent_run_prints_nothing (E : Externals) (sources summaries : arg)
    (source summary : string)
    (source_ents summary_ents : option (list (list Entity)))
    (device : string) (w : World) :
  stdout (__call__ E sources summaries false device w).2 = stdout w /\
  stdout (extract_facts E source summary false device w).2 = stdout w /\
  stdout (extract_qas E source summary source_ents summary_ents false device
            w).2 = stdout w /\
  stdout (extract_triples E source summary false w).2 = stdout w /\
  stdout (calculate_rouge E source summary false w).2 = stdout w /\
  stdout (calculate_bert_score E source summary false device w).2 = stdout w.
Proof.
  split; [apply stdout___call__|].
  split; [apply stdout_extract_facts|].
  split; [apply stdout_extract_qas|].
  split; [apply stdout_extract_triples|].
  split; [apply stdout_calculate_rouge|apply stdout_calculate_bert_score].
Qed.

(** ** Loading *)

Lemma frames_after {A B X} (f : World -> X) (m : M A) (k : A -> M B)
    (w w1 : World) (a : A) :
  m w = (Ok a, w1) -> frames f (k a) -> f ((m ≫= k) w).2 = f w1.
Proof. intros Hrun Hk. rewrite (run_bind _ _ _ _ _ Hrun). apply Hk. Qed.

Lemma extends_refl (s : FactSumm) : extends s s.
Proof. by repeat split. Qed.

Lemma extends_trans (s1 s2 s3 : FactSumm) :
  extends s1 s2 -> extends s2 s3 -> extends s1 s3.
Proof.
  intros (H1 & H2 & H3 & H4 & H5 & H6) (G1 & G2 & G3 & G4 & G5 & G6).
  repeat split; eauto.
Qed.

Lemma frames_mono {A} (m : M A) : frames self m -> mono m.
Proof. intros H w. rewrite H. apply extends_refl. Qed.

Lemma mono_bind {A B} (m : M A) (k : A -> M B) :
  mono m -> (forall a, mono (k a)) -> mono (m ≫= k).
Proof.
  intros Hm Hk w. unfold mbind, M_bind. specialize (Hm w).
  destruct (m w) as [[a|e] w1]; simpl in *; [|done].
  eapply extends_trans; [exact Hm|apply Hk].
Qed.

Lemma mono_foldM {A B} (g : A -> B -> M A) (a : A) (l : list B) :
  (forall a x, mono (g a x)) -> mono (foldM g a l).
Proof.
  intros Hg. revert a. induction l as [|x l IH]; intros a; simpl.
  - apply frames_mono, frames_ret.
  - apply mono_bind; [apply Hg|apply IH].
Qed.

Section loading.
Context (E : Externals).

#[local] Hint Resolve self_call_ner self_call_rel self_call_qg self_call_qa
  self_call_ie self_call_bert_score self__segment self_get_facts
  self__print_entities self__print_facts self__print_triples self__print_qas
  self_compare_facts self_compare_triples : frames.

Lemma extract_facts_self (source summary : string) (verbose : bool)
    (device : string) (w : World) :
  self (extract_facts E source summary verbose device w).2
  = match ner (self w), rel (self w) with
    | Name ner_name, Name rel_name =>
        set_rel (Model (load_rel E rel_name device))
          (set_ner (Model (load_ner E ner_name device)) (self w))
    | _, _ => self w
    end.
Proof.
  unfold extract_facts. rewrite (run_bind get_self _ w w (self w) eq_refl).
  destruct (ner (self w)) as [ner_name|ner_h], (rel (self w)) as [rel_name|rel_h];
    (etrans; [eapply frames_after; [reflexivity|frames_auto]|reflexivity]).
Qed.

Lemma extract_qas_self (source summary : string)
    (source_ents summary_ents : option (list (list Entity)))
    (verbose : bool) (device : string) (w : World) :
  self (extract_qas E source summary source_ents summary_ents verbose device
          w).2
  = match ner (self w) with
    | Name ner_name => set_ner (Model (load_ner E ner_name device))
    | Model _ => fun s => s
    end
      match qg (self w), qa (self w) with
      | Name qg_name, Name qa_name =>
          set_qa (Model (load_qa E qa_name device))
            (set_qg (Model (load_qg E qg_name device)) (self w))
      | _, _ => self w
      end.
Proof.
  unfold extract_qas. rewrite (run_bind get_self _ w w (self w) eq_refl).
  destruct w as [[n r g a b i] t o]. cbn [self ner qg qa].
  destruct g as [qg_name|qg_h], a as [qa_name|qa_h], n as [ner_name|ner_h];
    (erewrite run_bind by reflexivity);
    (erewrite run_bind by reflexivity);
    (etrans; [eapply frames_after; [reflexivity|frames_auto]|reflexivity]).
Qed.

Lemma extract_triples_self (source summary : string) (verbose : bool)
    (w : World) :
  self (extract_triples E source summary verbose w).2
  = match ie (self w) with
    | None => set_ie (Some (load_ie E)) (self w)
    | Some _ => self w
    end.
Proof.
  unfold extract_triples. rewrite (run_bind get_self _ w w (self w) eq_refl).
  destruct (ie (self w));
    (etrans; [eapply frames_after; [reflexivity|frames_auto]|reflexivity]).
Qed.

Lemma calculate_bert_score_self (source summary : string) (verbose : bool)
    (device : string) (w : World) :
  self (calculate_bert_score E source summary verbose device w).2
  = match bert_score (self w) with
    | Name name => set_bert_score (Model (load_bert_score E name device)) (self w)
    | Model _ => self w
    end.
Proof.
  unfold calculate_bert_score.
  rewrite (run_bind get_self _ w w (self w) eq_refl).
  destruct (bert_score (self w));
    (etrans; [eapply frames_after; [reflexivity|frames_auto]|reflexivity]).
Qed.

Lemma self_calculate_rouge (source summary : string) (verbose : bool) :
  frames self (calculate_rouge E source summary verbose).
Proof. unfold calculate_rouge. frames_auto. Qed.

End loading.

Ltac extends_cases :=
  unfold extends; cbn; repeat split; intros ? ?; first [done|congruence].

Section monotone.
Context (E : Externals).

Lemma mono_extract_facts source summary verbose device :
  mono (extract_facts E source summary verbose device).
Proof.
  intros w. rewrite extract_facts_self.
  destruct (self w) as [n r g a b i]. destruct n, r; extends_cases.
Qed.

Lemma mono_extract_qas source summary source_ents summary_ents verbose device :
  mono (extract_qas E source summary source_ents summary_ents verbose device).
Proof.
  intros w. rewrite extract_qas_self.
  destruct (self w) as [n r g a b i]. destruct n, g, a; extends_cases.
Qed.

Lemma mono_extract_triples source summary verbose :
  mono (extract_triples E source summary verbose).
Proof.
  intros w. rewrite extract_triples_self.
  destruct (self w) as [n r g a b i]. destruct i; extends_cases.
Qed.

Lemma mono_calculate_bert_score source summary verbose device :
  mono (calculate_bert_score E source summary verbose device).
Proof.
  intros w. rewrite calculate_bert_score_self.
  destruct (self w) as [n r g a b i]. destruct b; extends_cases.
Qed.

Lemma mono_calculate_rouge source summary verbose :
  mono (calculate_rouge E source summary verbose).
Proof. apply frames_mono, self_calculate_rouge. Qed.

Lemma mono_accumulate verbose device totals pair :
  mono (accumulate E verbose device totals pair).
Proof.
  unfold accumulate. destruct pair as [source summary].
  apply mono_bind; [apply mono_extract_facts|]. intros [[? ?] ?].
  apply mono_bind; [apply mono_extract_qas|]. intros ?.
  apply mono_bind; [apply mono_extract_triples|]. intros ?.
  apply mono_bind; [apply mono_calculate_rouge|]. intros [[? ?] ?].
  apply mono_bind; [apply mono_calculate_bert_score|]. intros ?.
  apply frames_mono. frames_auto.
Qed.

Lemma mono___call__ sources summaries verbose device :
  mono (__call__ E sources summaries verbose device).
Proof.
  unfold __call__.
  destruct sources, summaries; cbv beta iota; case_decide;
    try (apply frames_mono, frames_raise);
    (apply mono_bind;
     [apply mono_foldM; intros; apply mono_accumulate|]);
    intros totals; apply frames_mono; frames_auto.
Qed.

End monotone.

(** X23: In every state and whatever its outcome, [extract_facts] changes the
    instance in one way only: when the NER and the RE slot both hold a name
    it loads both models; when either is loaded it loads nothing. *)
Theorem extract_facts_loads_both_or_nothing (E : Externals)
    (source summary : string) (verbose : bool) (device : string) (w : World) :
  self (extract_facts E source summary verbose device w).2
  = match ner (self w), rel (self w) with
    | Name ner_name, Name rel_name =>
        set_rel (Model (load_rel E rel_name device))
          (set_ner (Model (load_ner E ner_name device)) (self w))
    | _, _ => self w
    end.
Proof. apply extract_facts_self. Qed.

(** X24: In every state and whatever its outcome, [extract_qas] loads the QG and
    QA models when both slots hold a name, and nothing for them otherwise;
    it loads the NER model whenever that slot holds a name; nothing else
    changes. *)
Theorem extract_qas_loads (E : Externals) (source summary : string)
    (source_ents summary_ents : option (list (list Entity)))
    (verbose : bool) (device : string) (w : World) :
  self (extract_qas E source summary source_ents summary_ents verbose device
          w).2
  = match ner (self w) with
    | Name ner_name => set_ner (Model (load_ner E ner_name device))
    | Model _ => fun s => s
    end
      match qg (self w), qa (self w) with
      | Name qg_name, Name qa_name =>
          set_qa (Model (load_qa E qa_name device))
            (set_qg (Model (load_qg E qg_name device)) (self w))
      | _, _ => self w
      end.
Proof. apply extract_qas_self. Qed.

(** X25: No method ever unloads or replaces a loaded model: after the entry point
    or any scoring method, in every state and whether it returns or raises,
    each slot that held a model holds the same model. *)
Theorem loaded_models_stay (E : Externals) (sources summaries : arg)
    (source summary : string)
    (source_ents summary_ents : option (list (list Entity)))
    (verbose : bool) (device : string) (w : World) :
  extends (self w) (self (__call__ E sources summaries verbose device w).2) /\
  extends (self w) (self (extract_facts E source summary verbose device w).2) /\
  extends (self w)
    (self (extract_qas E source summary source_ents summary_ents verbose
             device w).2) /\
  extends (self w) (self (extract_triples E source summary verbose w).2) /\
  extends (self w) (self (calculate_rouge E source summary verbose w).2) /\
  extends (self w)
    (self (calculate_bert_score E source summary verbose device w).2).
Proof.
  split; [apply mono___call__|].
  split; [apply mono_extract_facts|].
  split; [apply mono_extract_qas|].
  split; [apply mono_extract_triples|].
  split; [apply mono_calculate_rouge|apply mono_calculate_bert_score].
Qed.
